(** * pkg/identity/cache/allocator.go: the identity allocation orchestrator

    A shallow embedding of the package-level state of [allocator.go] and of
    its operations ([InitIdentityAllocator], [Close],
    [WaitForInitialIdentities], [AllocateIdentity], [Release],
    [ReleaseSlice]) as programs of a state-and-trace monad, followed by
    the properties stated about them. The critical sections under
    [identityRefCountMutex] are given a second time statement by
    statement, as the steps of goroutines that a scheduler interleaves.

    The collaborators living in other packages (the kvstore allocator, the
    local identity cache, the reserved identity table, the label
    predicates) are an interface ([Collaborators]); the controller manager
    is a finite map from controller names to parameters. *)

From Stdlib Require Import NArith Lia Ascii String.
From stdpp Require Import base option list gmap strings pretty.

Local Open Scope N_scope.
Local Open Scope string_scope.

(** ** Go primitives used by the file *)
Module Go.

(** [error]: [None] is the nil error, [Some msg] an error with message. *)
Definition error := option string.

(** [uint] on a 64-bit platform. *)
Definition uint_modulus : N := 2 ^ 64.

(** [x++] on a [uint]. *)
Definition uint_incr (x : N) : N := (x + 1) mod uint_modulus.

(** [x--] on a [uint]: wraps to the largest value at zero. *)
Definition uint_decr (x : N) : N := (x + uint_modulus - 1) mod uint_modulus.

(** [uint32(x)] *)
Definition uint32 (x : N) : N := x mod 2 ^ 32.

(** [fmt.Sprintf("%d", x)] for an unsigned integer. *)
Definition fmt_d (x : N) : string := pretty x.

(** [context.Context], as far as the file observes it: whether
    [ctx.Done()] is (or becomes, while the caller waits) closed, and the
    text of [ctx.Err()]. *)
Record Context := { ctx_done : bool; ctx_err : string }.

End Go.
Export Go.

Global Arguments uint_incr : simpl never.
Global Arguments uint_decr : simpl never.
Global Arguments uint32 : simpl never.
Global Arguments fmt_d : simpl never.

(** ** Collaborators from other packages *)

(** Modelled from the spec: [identity.Identity] (pkg/identity, not in this
    file) is "a numeric value paired with the label set it represents". *)
Record Identity (Labels : Type) := NewIdentity { ID : N; Labels_of : Labels }.
Arguments NewIdentity {Labels} _ _.
Arguments ID {Labels} _.
Arguments Labels_of {Labels} _.

(** [identity.NumericIdentity(id)]: a [uint32] conversion of an
    [idpool.ID]. *)
Definition NumericIdentity (id : N) : N := uint32 id.

(** [IdentityAllocatorOwner]; [TriggerPolicyUpdates] is only called by the
    watcher. *)
Record IdentityAllocatorOwner := { GetNodeSuffix : string }.

(** The functions of other packages and files that [allocator.go] calls.
    Stateful collaborators thread their own state. *)
Class Collaborators := {
  (* pkg/labels *)
  Labels : Type;
  (* pkg/identity *)
  WellKnown : Type;
  InitWellKnownIdentities : WellKnown → WellKnown;
  RequiresGlobalIdentity : Labels → bool;
  IsReserved : WellKnown → Identity Labels → bool;
  (* pkg/identity/cache, other files *)
  LookupReservedIdentityByLabels : WellKnown → Labels → option (Identity Labels);
  localIdentityCache : Type;
  newLocalIdentityCache : N → N → localIdentityCache;
  lookupOrCreate : Labels → localIdentityCache →
                   (option (Identity Labels) * bool * error) * localIdentityCache;
  release : Identity Labels → localIdentityCache → bool * localIdentityCache;
  (* pkg/kvstore/allocator *)
  Allocator : Type;
  (* [inl a]: a handle and a nil error; [inr e]: the error [e] *)
  NewAllocator : string → Allocator + string;
  Allocate : Context → Labels → Allocator → (N * bool * error) * Allocator;
  Allocator_Release : Context → Labels → Allocator → (bool * error) * Allocator;
  WaitForInitialSync : Context → Allocator → error;
  (* the Go runtime: which case a [select] takes when the ready channel and
     [ctx.Done()] are both ready ([true]: the ready channel) *)
  select_ready_first : Context → bool
}.

Section Cache.
Context `{C : Collaborators}.

(** ** Package state *)

Inductive Mutex := setupMutex | identityRefCountMutex.

Inductive Level := Debug | Info | Error | PanicLevel | FatalLevel.

Inductive Field :=
| FIdentityLabels (l : Labels)
| FIdentity (id : N)
| FIdentityRef (i : Identity Labels)
| FIsNew (b : bool)
| FError (e : string).

(** What the program does to its collaborators and to shared variables, in
    program order. *)
Inductive Event :=
| Lock (m : Mutex)
| Unlock (m : Mutex)
| Log (lvl : Level) (msg : string) (fields : list Field)
| CallInitWellKnownIdentities
| WatcherWatch (owner : IdentityAllocatorOwner)
| WatcherStop
| CallNewAllocator (suffix : string)
| CallNewManager
| MakeRefCount
| CloseInitialized
| MakeInitialized
| CallNewLocalIdentityCache
| CallWaitForInitialSync
| CallAllocate (l : Labels)
| CallRelease (l : Labels)
| CallDelete
| CallLookupOrCreate (l : Labels)
| CallLocalRelease (i : Identity Labels)
| UpdateController (name : string)
| RemoveControllerAndWait (name : string)
| RemoveAllAndWait
| StoreRefCount (id : N) (n : N).

(** [controller.ControllerParams] of the keep-alive controller: [DoFunc] is
    a closure over [lbls]; [RunInterval] in nanoseconds. *)
Record ControllerParams := { DoFunc_lbls : Labels; RunInterval : N }.

Record State := {
  IdentityAllocator : option Allocator;
  (** [true] when the channel [identityAllocatorInitialized] is closed *)
  identityAllocatorInitialized : bool;
  localIdentities : option localIdentityCache;
  (** the watcher runs *)
  watcher : bool;
  (** [nil], or the controllers by name *)
  identityControllerManager : option (gmap string ControllerParams);
  (** [nil], or the map *)
  idPoolRefCount : option (gmap N N);
  (** state of pkg/identity's tables *)
  wellKnown : WellKnown;
  trace : list Event
}.

(** The state at process start, before any [InitIdentityAllocator]. *)
Definition initial (wk : WellKnown) : State :=
  {| IdentityAllocator := None; identityAllocatorInitialized := false;
     localIdentities := None; watcher := false;
     identityControllerManager := None; idPoolRefCount := None;
     wellKnown := wk; trace := [] |}.

(** ** The monad: state, trace, panics, exits and blocking *)

Inductive Result (A : Type) :=
| Returns (a : A) (s : State)
| Panics (msg : string) (s : State)
| Exits (s : State)
| Blocks (s : State).
Arguments Returns {A} _ _.
Arguments Panics {A} _ _.
Arguments Exits {A} _.
Arguments Blocks {A} _.

Definition final {A} (r : Result A) : State :=
  match r with
  | Returns _ s | Panics _ s | Exits s | Blocks s => s
  end.

(** The values a call returns, if it returns. *)
Definition returned {A} (r : Result A) : option A :=
  if r is Returns a _ then Some a else None.

Definition M (A : Type) := State → Result A.

Global Instance M_ret : MRet M := λ A a s, Returns a s.

Global Instance M_bind : MBind M := λ A B k m s,
  match m s with
  | Returns a s' => k a s'
  | Panics msg s' => Panics msg s'
  | Exits s' => Exits s'
  | Blocks s' => Blocks s'
  end.

(** Reading and writing the package variables. *)
Definition get : M State := λ s, Returns s s.
Definition modify (f : State → State) : M unit := λ s, Returns () (f s).

Definition set_IdentityAllocator (v : option Allocator) (s : State) : State :=
  {| IdentityAllocator := v;
     identityAllocatorInitialized := identityAllocatorInitialized s;
     localIdentities := localIdentities s; watcher := watcher s;
     identityControllerManager := identityControllerManager s;
     idPoolRefCount := idPoolRefCount s; wellKnown := wellKnown s;
     trace := trace s |}.

Definition set_identityAllocatorInitialized (v : bool) (s : State) : State :=
  {| IdentityAllocator := IdentityAllocator s;
     identityAllocatorInitialized := v;
     localIdentities := localIdentities s; watcher := watcher s;
     identityControllerManager := identityControllerManager s;
     idPoolRefCount := idPoolRefCount s; wellKnown := wellKnown s;
     trace := trace s |}.

Definition set_localIdentities (v : option localIdentityCache) (s : State) : State :=
  {| IdentityAllocator := IdentityAllocator s;
     identityAllocatorInitialized := identityAllocatorInitialized s;
     localIdentities := v; watcher := watcher s;
     identityControllerManager := identityControllerManager s;
     idPoolRefCount := idPoolRefCount s; wellKnown := wellKnown s;
     trace := trace s |}.

Definition set_watcher (v : bool) (s : State) : State :=
  {| IdentityAllocator := IdentityAllocator s;
     identityAllocatorInitialized := identityAllocatorInitialized s;
     localIdentities := localIdentities s; watcher := v;
     identityControllerManager := identityControllerManager s;
     idPoolRefCount := idPoolRefCount s; wellKnown := wellKnown s;
     trace := trace s |}.

Definition set_identityControllerManager
    (v : option (gmap string ControllerParams)) (s : State) : State :=
  {| IdentityAllocator := IdentityAllocator s;
     identityAllocatorInitialized := identityAllocatorInitialized s;
     localIdentities := localIdentities s; watcher := watcher s;
     identityControllerManager := v;
     idPoolRefCount := idPoolRefCount s; wellKnown := wellKnown s;
     trace := trace s |}.

Definition set_idPoolRefCount (v : option (gmap N N)) (s : State) : State :=
  {| IdentityAllocator := IdentityAllocator s;
     identityAllocatorInitialized := identityAllocatorInitialized s;
     localIdentities := localIdentities s; watcher := watcher s;
     identityControllerManager := identityControllerManager s;
     idPoolRefCount := v; wellKnown := wellKnown s;
     trace := trace s |}.

Definition set_wellKnown (v : WellKnown) (s : State) : State :=
  {| IdentityAllocator := IdentityAllocator s;
     identityAllocatorInitialized := identityAllocatorInitialized s;
     localIdentities := localIdentities s; watcher := watcher s;
     identityControllerManager := identityControllerManager s;
     idPoolRefCount := idPoolRefCount s; wellKnown := v;
     trace := trace s |}.

(** Appending to the trace. *)
Definition append_trace (evs : list Event) (s : State) : State :=
  {| IdentityAllocator := IdentityAllocator s;
     identityAllocatorInitialized := identityAllocatorInitialized s;
     localIdentities := localIdentities s; watcher := watcher s;
     identityControllerManager := identityControllerManager s;
     idPoolRefCount := idPoolRefCount s; wellKnown := wellKnown s;
     trace := trace s ++ evs |}.

Definition emit (e : Event) : M unit := λ s, Returns () (append_trace [e] s).

(** [panic(msg)], [os.Exit] and blocking forever. *)
Definition panic {A} (msg : string) : M A := λ s, Panics msg s.
Definition exit {A} : M A := λ s, Exits s.
Definition block {A} : M A := λ s, Blocks s.

(** [defer d] placed before [body]: [d] runs when [body] returns and when it
    panics, not when the process exits or the goroutine stays blocked. *)
Definition defer {A} (d : M unit) (body : M A) : M A := λ s,
  match body s with
  | Returns a s' =>
      match d s' with
      | Returns _ s'' => Returns a s''
      | Panics msg s'' => Panics msg s''
      | Exits s'' => Exits s''
      | Blocks s'' => Blocks s''
      end
  | Panics msg s' =>
      match d s' with
      | Returns _ s'' => Panics msg s''
      | Panics msg' s'' => Panics msg' s''
      | Exits s'' => Exits s''
      | Blocks s'' => Blocks s''
      end
  | Exits s' => Exits s'
  | Blocks s' => Blocks s'
  end.

(** logrus: [log.Panic] logs and panics with the message, [log.Fatal] logs
    and exits. *)
Definition log (lvl : Level) (msg : string) (fields : list Field) : M unit :=
  emit (Log lvl msg fields).
Definition log_Panic {A} (msg : string) : M A :=
  log PanicLevel msg [];; panic msg.
Definition log_Fatal {A} (msg : string) (fields : list Field) : M A :=
  log FatalLevel msg fields;; exit.

(** ** Collaborators reached through the package variables *)

Definition nil_dereference : string :=
  "invalid memory address or nil pointer dereference".

(** [fmt.Sprintf("sync-identity (%d)", id)] *)
Definition controller_name (id : N) : string :=
  "sync-identity (" +:+ fmt_d id +:+ ")".

(** The parameters [AllocateIdentity] gives the keep-alive controller;
    [time.Millisecond] is 1000000 ns. *)
Definition sync_identity_params (lbls : Labels) : ControllerParams :=
  {| DoFunc_lbls := lbls; RunInterval := 1000000 |}.

Global Arguments controller_name : simpl never.

(** [IdentityAllocator.Allocate(ctx, globalIdentity{lbls})] *)
Definition IdentityAllocator_Allocate (ctx : Context) (lbls : Labels)
  : M (N * bool * error) :=
  s ← get;
  match IdentityAllocator s with
  | None => panic nil_dereference
  | Some a =>
      emit (CallAllocate lbls);;
      modify (set_IdentityAllocator (Some (Allocate ctx lbls a).2));;
      mret (Allocate ctx lbls a).1
  end.

(** [IdentityAllocator.Release(ctx, globalIdentity{lbls})] *)
Definition IdentityAllocator_Release (ctx : Context) (lbls : Labels)
  : M (bool * error) :=
  s ← get;
  match IdentityAllocator s with
  | None => panic nil_dereference
  | Some a =>
      emit (CallRelease lbls);;
      modify (set_IdentityAllocator (Some (Allocator_Release ctx lbls a).2));;
      mret (Allocator_Release ctx lbls a).1
  end.

(** [IdentityAllocator.Delete()] *)
Definition IdentityAllocator_Delete : M unit :=
  s ← get;
  match IdentityAllocator s with
  | None => panic nil_dereference
  | Some _ => emit CallDelete
  end.

(** [localIdentities.lookupOrCreate(lbls)] *)
Definition localIdentities_lookupOrCreate (lbls : Labels)
  : M (option (Identity Labels) * bool * error) :=
  s ← get;
  match localIdentities s with
  | None => panic nil_dereference
  | Some l =>
      emit (CallLookupOrCreate lbls);;
      modify (set_localIdentities (Some (lookupOrCreate lbls l).2));;
      mret (lookupOrCreate lbls l).1
  end.

(** [localIdentities.release(id)] *)
Definition localIdentities_release (id : Identity Labels) : M bool :=
  s ← get;
  match localIdentities s with
  | None => panic nil_dereference
  | Some l =>
      emit (CallLocalRelease id);;
      modify (set_localIdentities (Some (release id l).2));;
      mret (release id l).1
  end.

(** [identityControllerManager.UpdateController(name, params)]: creates the
    controller or updates the one of that name. *)
Definition Manager_UpdateController (name : string) (params : ControllerParams)
  : M unit :=
  s ← get;
  match identityControllerManager s with
  | None => panic nil_dereference
  | Some m =>
      emit (UpdateController name);;
      modify (set_identityControllerManager (Some (<[name := params]> m)))
  end.

(** [identityControllerManager.RemoveControllerAndWait(name)]; the error it
    returns for an unknown name is dropped by the caller. *)
Definition Manager_RemoveControllerAndWait (name : string) : M unit :=
  s ← get;
  match identityControllerManager s with
  | None => panic nil_dereference
  | Some m =>
      emit (RemoveControllerAndWait name);;
      modify (set_identityControllerManager (Some (delete name m)))
  end.

(** [identityControllerManager.RemoveAllAndWait()] *)
Definition Manager_RemoveAllAndWait : M unit :=
  s ← get;
  match identityControllerManager s with
  | None => panic nil_dereference
  | Some _ =>
      emit RemoveAllAndWait;;
      modify (set_identityControllerManager (Some ∅))
  end.

(** [idPoolRefCount[id]] as a value: 0 for a missing key and for a nil map. *)
Definition refCount_of (s : State) (id : N) : N :=
  match idPoolRefCount s with
  | None => 0
  | Some m => default 0 (m !! id)
  end.

Definition idPoolRefCount_get (id : N) : M N :=
  s ← get; mret (refCount_of s id).

(** [idPoolRefCount[id] = n]: panics on a nil map. *)
Definition idPoolRefCount_set (id n : N) : M unit :=
  s ← get;
  match idPoolRefCount s with
  | None => panic "assignment to entry in nil map"
  | Some m =>
      emit (StoreRefCount id n);;
      modify (set_idPoolRefCount (Some (<[id := n]> m)))
  end.

(** [idPoolRefCount[id]++] and [idPoolRefCount[id]--] *)
Definition idPoolRefCount_incr (id : N) : M unit :=
  c ← idPoolRefCount_get id; idPoolRefCount_set id (uint_incr c).
Definition idPoolRefCount_decr (id : N) : M unit :=
  c ← idPoolRefCount_get id; idPoolRefCount_set id (uint_decr c).

(** [close(identityAllocatorInitialized)] *)
Definition close_identityAllocatorInitialized : M unit :=
  s ← get;
  if identityAllocatorInitialized s then panic "close of closed channel"
  else emit CloseInitialized;;
       modify (set_identityAllocatorInitialized true).

(** ** The operations of allocator.go *)

Definition InitIdentityAllocator (owner : IdentityAllocatorOwner) : M unit :=
  emit (Lock setupMutex);;
  defer (emit (Unlock setupMutex))
    (s ← get;
     (if IdentityAllocator s is Some _
      then log_Panic "InitIdentityAllocator() in succession without calling Close()"
      else mret ());;
     emit CallInitWellKnownIdentities;;
     modify (λ s, set_wellKnown (InitWellKnownIdentities (wellKnown s)) s);;
     log Info "Initializing identity allocator" [];;
     (* events := make(allocator.AllocatorEventChan, 1024) *)
     emit (WatcherWatch owner);;
     modify (set_watcher true);;
     emit (CallNewAllocator (GetNodeSuffix owner));;
     match NewAllocator (GetNodeSuffix owner) with
     | inr err =>
         log_Fatal "Unable to initialize identity allocator" [FError err]
     | inl a =>
         emit CallNewManager;;
         modify (set_identityControllerManager (Some ∅));;
         emit MakeRefCount;;
         modify (set_idPoolRefCount (Some ∅));;
         modify (set_IdentityAllocator (Some a));;
         close_identityAllocatorInitialized;;
         emit CallNewLocalIdentityCache;;
         modify (set_localIdentities (Some (newLocalIdentityCache 1 0xFFFFFF)))
     end).

Definition Close : M unit :=
  emit (Lock setupMutex);;
  defer (emit (Unlock setupMutex))
    (s ← get;
     (if identityAllocatorInitialized s then mret ()
      else if IdentityAllocator s is None
           then log_Panic "Close() called without calling InitIdentityAllocator() first"
           else mret ());;
     emit (Lock identityRefCountMutex);;
     emit MakeRefCount;;
     modify (set_idPoolRefCount (Some ∅));;
     Manager_RemoveAllAndWait;;
     emit (Unlock identityRefCountMutex);;
     IdentityAllocator_Delete;;
     emit WatcherStop;;
     modify (set_watcher false);;
     modify (set_IdentityAllocator None);;
     emit MakeInitialized;;
     modify (set_identityAllocatorInitialized false);;
     modify (set_localIdentities None)).

(** The [select] of [WaitForInitialIdentities]: [true] when the case of the
    ready channel is taken, [false] for [ctx.Done()]; with neither ready the
    goroutine stays blocked. *)
Definition select_initialized (ctx : Context) : M bool :=
  s ← get;
  match identityAllocatorInitialized s, ctx_done ctx with
  | true, true => mret (select_ready_first ctx)
  | true, false => mret true
  | false, true => mret false
  | false, false => block
  end.

Definition WaitForInitialIdentities (ctx : Context) : M error :=
  ready ← select_initialized ctx;
  if ready : bool then
    s ← get;
    match IdentityAllocator s with
    | None => panic nil_dereference
    | Some a => emit CallWaitForInitialSync;; mret (WaitForInitialSync ctx a)
    end
  else mret (Some ("initial identity sync was cancelled: " +:+ ctx_err ctx)).

Definition IdentityAllocationIsLocal (lbls : Labels) : M bool :=
  s ← get;
  mret (bool_decide (is_Some (LookupReservedIdentityByLabels (wellKnown s) lbls))).

(** The body of the keep-alive controller's [DoFunc]: the ticker fires
    after five minutes unless [ctx] is done before. *)
Definition sync_identity_DoFunc (lbls : Labels) (ctx : Context) : M error :=
  if ctx_done ctx
  then mret (Some ("re-sync cancelled via context: " +:+ ctx_err ctx))
  else r ← IdentityAllocator_Allocate ctx lbls; mret r.2.

Definition AllocateIdentity (ctx : Context) (lbls : Labels)
  : M (option (Identity Labels) * bool * error) :=
  log Debug "Resolving identity" [FIdentityLabels lbls];;
  s ← get;
  match LookupReservedIdentityByLabels (wellKnown s) lbls with
  | Some reservedIdentity =>
      log Debug "Resolved reserved identity"
        [FIdentity (ID reservedIdentity); FIdentityLabels lbls; FIsNew false];;
      mret (Some reservedIdentity, false, None)
  | None =>
      if negb (RequiresGlobalIdentity lbls)
         && bool_decide (is_Some (localIdentities s))
      then localIdentities_lookupOrCreate lbls
      else
        WaitForInitialIdentities ctx;;
        s ← get;
        if IdentityAllocator s is None
        then mret (None, false, Some "allocator not initialized")
        else
          r ← IdentityAllocator_Allocate ctx lbls;
          let '(id, isNew, err) := r in
          match err with
          | Some e => mret (None, false, Some e)
          | None =>
              emit (Lock identityRefCountMutex);;
              c ← idPoolRefCount_get id;
              let refCountNew := (c =? 0)%N in
              (if refCountNew
               then Manager_UpdateController (controller_name id)
                      (sync_identity_params lbls)
               else mret ());;
              idPoolRefCount_incr id;;
              emit (Unlock identityRefCountMutex);;
              log Debug "Resolved identity"
                [FIdentity id; FIdentityLabels lbls; FIsNew isNew];;
              mret (Some (NewIdentity (NumericIdentity id) lbls), isNew, None)
          end
  end.

(** [id] is a non-nil [*identity.Identity]. *)
Definition Release (ctx : Context) (id : Identity Labels) : M (bool * error) :=
  s ← get;
  if IsReserved (wellKnown s) id then mret (false, None)
  else if negb (RequiresGlobalIdentity (Labels_of id))
          && bool_decide (is_Some (localIdentities s))
  then released ← localIdentities_release id; mret (released, None)
  else
    WaitForInitialIdentities ctx;;
    s ← get;
    if IdentityAllocator s is None
    then mret (false, Some "allocator not initialized")
    else
      r ← IdentityAllocator_Release ctx (Labels_of id);
      let '(lastUse, err) := r in
      match err with
      | Some e => mret (false, Some e)
      | None =>
          let idty := uint32 (ID id) in
          emit (Lock identityRefCountMutex);;
          refCount ← idPoolRefCount_get idty;
          (if (0 <? refCount)%N
           then
             let lastRef := (refCount =? 1)%N in
             (if lastRef
              then Manager_RemoveControllerAndWait (controller_name idty)
              else mret ());;
             idPoolRefCount_decr idty
           else mret ());;
          emit (Unlock identityRefCountMutex);;
          mret (lastUse, None)
      end.

(** The loop of [ReleaseSlice]; [err] is the variable [err] of the
    function, a nil pointer in [identities] is [None]. *)
Fixpoint ReleaseSlice_range (ctx : Context)
    (identities : list (option (Identity Labels))) (err : error) : M error :=
  match identities with
  | [] => mret err
  | None :: rest => ReleaseSlice_range ctx rest err
  | Some id :: rest =>
      r ← Release ctx id;
      match r.2 with
      | Some err2 =>
          log Error "Failed to release identity" [FError err2; FIdentityRef id];;
          ReleaseSlice_range ctx rest (Some err2)
      | None => ReleaseSlice_range ctx rest err
      end
  end.

Definition ReleaseSlice (ctx : Context)
    (identities : list (option (Identity Labels))) : M error :=
  ReleaseSlice_range ctx identities None.

End Cache.

Arguments Returns {C A} _ _.
Arguments Panics {C A} _ _.
Arguments Exits {C A} _.
Arguments Blocks {C A} _.


(** ** Histories of calls *)
Section Histories.
Context `{C : Collaborators}.

(** A call of one of the package's functions. *)
Inductive Op :=
| OpInitIdentityAllocator (owner : IdentityAllocatorOwner)
| OpClose
| OpWaitForInitialIdentities (ctx : Context)
| OpAllocateIdentity (ctx : Context) (lbls : Labels)
| OpRelease (ctx : Context) (id : Identity Labels)
| OpReleaseSlice (ctx : Context) (identities : list (option (Identity Labels))).

(** The state a call leaves behind, however it ends. *)
Definition after (op : Op) (s : State) : State :=
  match op with
  | OpInitIdentityAllocator owner => final (InitIdentityAllocator owner s)
  | OpClose => final (Close s)
  | OpWaitForInitialIdentities ctx => final (WaitForInitialIdentities ctx s)
  | OpAllocateIdentity ctx lbls => final (AllocateIdentity ctx lbls s)
  | OpRelease ctx id => final (Release ctx id s)
  | OpReleaseSlice ctx identities => final (ReleaseSlice ctx identities s)
  end.

(** The states of the package after any sequence of calls, one after the
    other, from process start. *)
Inductive Reachable : State → Prop :=
| Reachable_initial wk : Reachable (initial wk)
| Reachable_after op s : Reachable s → Reachable (after op s).

Definition non_nil {A} (p : option A) : bool :=
  if p is Some _ then true else false.

(** Which package variables are set. *)
Definition shape (s : State) : bool * bool * bool * bool * bool :=
  (identityAllocatorInitialized s, non_nil (IdentityAllocator s),
   non_nil (identityControllerManager s), non_nil (idPoolRefCount s),
   non_nil (localIdentities s)).

(** The ready channel is closed exactly while there is a handle, and a
    handle comes with a manager, a count table and a local cache. *)
Definition coherent (s : State) : Prop :=
  identityAllocatorInitialized s = non_nil (IdentityAllocator s) ∧
  (non_nil (IdentityAllocator s) = true →
   non_nil (identityControllerManager s) = true ∧
   non_nil (idPoolRefCount s) = true ∧
   non_nil (localIdentities s) = true).

(** Every identity with a positive count has its keep-alive controller. *)
Definition armed_with (rc : option (gmap N N))
    (m : option (gmap string ControllerParams)) : Prop :=
  ∀ n c, rc ≫= (.!! n) = Some c → (0 < c)%N →
    is_Some (m ≫= (.!! controller_name n)).

Definition armed (s : State) : Prop :=
  armed_with (idPoolRefCount s) (identityControllerManager s).

End Histories.

Global Arguments armed_with : simpl never.

(** ** The vocabulary of the statements *)
Section Statements.
Context `{C : Collaborators}.

Implicit Types (s : State) (ctx : Context) (lbls : Labels)
  (id : Identity Labels) (evs : list Event).

(** The events of a returning [WaitForInitialIdentities]. *)
Definition wait_events (w : list Event) : Prop :=
  w = [] ∨ w = [CallWaitForInitialSync].

(** The label set is handled by the kvstore path: it requires a global
    identity, or there is no local identity cache. *)
Definition global_path lbls s : Prop :=
  RequiresGlobalIdentity lbls = true ∨ localIdentities s = None.

(** The readiness gate does not block. *)
Definition gate_open ctx s : Prop :=
  identityAllocatorInitialized s = true ∨ ctx_done ctx = true.

(** The events of the critical section of [AllocateIdentity] for the
    identity [n] whose count was [c]. *)
Definition arm_events (n c : N) : list Event :=
  [Lock identityRefCountMutex]
  ++ (if (c =? 0)%N then [UpdateController (controller_name n)] else [])
  ++ [StoreRefCount n (uint_incr c); Unlock identityRefCountMutex].

(** The events of the critical section of [Release]. *)
Definition disarm_events (n c : N) : list Event :=
  [Lock identityRefCountMutex]
  ++ (if (0 <? c)%N
      then (if (c =? 1)%N then [RemoveControllerAndWait (controller_name n)]
            else [])
           ++ [StoreRefCount n (uint_decr c)]
      else [])
  ++ [Unlock identityRefCountMutex].

Definition init_twice : string :=
  "InitIdentityAllocator() in succession without calling Close()".
Definition close_first : string :=
  "Close() called without calling InitIdentityAllocator() first".

(** [e1] occurs in [evs], and [e2] occurs later. *)
Definition precedes (e1 e2 : Event) (evs : list Event) : Prop :=
  ∃ l1 l2 l3 : list Event, evs = (l1 ++ e1 :: l2 ++ e2 :: l3)%list.

(** The events of a successful [InitIdentityAllocator]. *)
Definition init_events (owner : IdentityAllocatorOwner) : list Event :=
  [Lock setupMutex;
   CallInitWellKnownIdentities;
   Log Info "Initializing identity allocator" [];
   WatcherWatch owner;
   CallNewAllocator (GetNodeSuffix owner);
   CallNewManager;
   MakeRefCount;
   CloseInitialized;
   CallNewLocalIdentityCache;
   Unlock setupMutex].

(** What [AllocateIdentity] does on the global path when the backend
    returns the identity [n]: the controller of [n] is created exactly when
    the count of [n] was zero or absent, the count plus one is stored, both
    between one [Lock] and [Unlock] of [identityRefCountMutex]. *)
Definition AllocateIdentity_arms ctx lbls s a (n : N) (isNew : bool) : Prop :=
  ∃ w m rc,
    wait_events w ∧
    identityControllerManager s = Some m ∧ idPoolRefCount s = Some rc ∧
    AllocateIdentity ctx lbls s =
      Returns (Some (NewIdentity (NumericIdentity n) lbls), isNew, None)
        (set_idPoolRefCount
           (Some (<[n := uint_incr (refCount_of s n)]> rc))
           (set_identityControllerManager
              (Some (if (refCount_of s n =? 0)%N
                     then <[controller_name n := sync_identity_params lbls]> m
                     else m))
              (set_IdentityAllocator (Some (Allocate ctx lbls a).2)
                 (append_trace
                    ([Log Debug "Resolving identity" [FIdentityLabels lbls]]
                     ++ w ++ [CallAllocate lbls]
                     ++ arm_events n (refCount_of s n)
                     ++ [Log Debug "Resolved identity"
                           [FIdentity n; FIdentityLabels lbls; FIsNew isNew]])
                    s)))).

(** What [Release] does on the global path when the backend's release
    succeeds: the controller of the identity is removed exactly when its
    count was one, the count minus one is stored when it was positive, both
    between one [Lock] and [Unlock] of [identityRefCountMutex]. *)
Definition Release_disarms ctx id s a (lastUse : bool) : Prop :=
  let idty := uint32 (ID id) in
  let refCount := refCount_of s idty in
  ∃ w m rc,
    wait_events w ∧
    identityControllerManager s = Some m ∧ idPoolRefCount s = Some rc ∧
    Release ctx id s =
      Returns (lastUse, None)
        (set_idPoolRefCount
           (Some (if (0 <? refCount)%N
                  then <[idty := uint_decr refCount]> rc else rc))
           (set_identityControllerManager
              (Some (if (refCount =? 1)%N
                     then delete (controller_name idty) m else m))
              (set_IdentityAllocator
                 (Some (Allocator_Release ctx (Labels_of id) a).2)
                 (append_trace
                    (w ++ [CallRelease (Labels_of id)]
                     ++ disarm_events idty refCount)
                    s)))).

(** The controllers of the identity [n] in a manager. *)
Definition controllers_of (n : N) (m : gmap string ControllerParams)
  : gmap string ControllerParams :=
  filter (λ kv, kv.1 = controller_name n) m.

(** One attempt of the loop: the identity, what [Release] returned for it
    and the state [Release] left. *)
Definition Attempt : Type := Identity Labels * (bool * error) * State.

Definition attempt_error (t : Attempt) : error := t.1.2.2.

(** The log line of a failed release. *)
Definition release_failed (id : Identity Labels) (e : string) : Event :=
  Log Error "Failed to release identity" [FError e; FIdentityRef id].

(** The state after the loop body of an attempt: a failure is logged. *)
Definition after_attempt (t : Attempt) : State :=
  match attempt_error t with
  | Some e => append_trace [release_failed t.1.1 e] t.2
  | None => t.2
  end.

(** [attempts ctx s ts]: starting in [s], [Release] is called on the
    identity of each attempt in turn, in the state the attempt before it
    left (log line included), and returns what the attempt records;
    failed attempts do not stop the sequence. *)
Fixpoint attempts (ctx : Context) (s : State) (ts : list Attempt) : Prop :=
  match ts with
  | [] => True
  | t :: rest =>
      Release ctx t.1.1 s = Returns t.1.2 t.2 ∧
      attempts ctx (after_attempt t) rest
  end.

(** The state after the last attempt. *)
Definition end_state (s : State) (ts : list Attempt) : State :=
  from_option after_attempt s (last ts).

(** The last error among the attempts, nil when none failed. *)
Definition last_error (ts : list Attempt) : error :=
  last (omap attempt_error ts).

(** The events a call added to the trace of [s]. *)
Definition new_events {A} (s : State) (r : Result A) : list Event :=
  drop (length (trace s)) (trace (final r)).

End Statements.

(** ** Remote identities *)
Section Federation.
Context `{C : Collaborators}.

(** pkg/kvstore and pkg/kvstore/allocator: the handle of another kvstore,
    the cache that mirrors it, [Allocator.WatchRemoteKVStore] (it registers
    the cache in the allocator it is called on) and the path of the
    identities in the kvstore. *)
Variables (BackendOperations RemoteCache : Type).
Variable WatchRemoteKVStore :
  BackendOperations → string → Allocator → RemoteCache * Allocator.
Variable IdentitiesPath : string.

(** [<-identityAllocatorInitialized] waits for the channel to be closed;
    there is no context to cancel the wait. The trace has no event for the
    call of the backend. *)
Definition WatchRemoteIdentities (backend : BackendOperations) : M RemoteCache :=
  s ← get;
  (if identityAllocatorInitialized s then mret () else block);;
  s ← get;
  match IdentityAllocator s with
  | None => panic nil_dereference
  | Some a =>
      modify (set_IdentityAllocator
                (Some (WatchRemoteKVStore backend IdentitiesPath a).2));;
      mret (WatchRemoteKVStore backend IdentitiesPath a).1
  end.

End Federation.

(** ** More vocabulary *)
Section MoreStatements.
Context `{C : Collaborators}.

Implicit Types (s : State) (ctx : Context) (lbls : Labels)
  (id : Identity Labels) (evs : list Event).

(** The call returns or stays blocked: it neither panics nor exits. *)
Definition returns_or_blocks {A} (r : Result A) : Prop :=
  match r with
  | Returns _ _ | Blocks _ => True
  | Panics _ _ | Exits _ => False
  end.

(** Every controller of the manager is a keep-alive controller made by
    [AllocateIdentity], and there are controllers only while there is an
    allocator. *)
Definition registered_with (live : bool)
    (m : option (gmap string ControllerParams)) : Prop :=
  ∀ m' name p, m = Some m' → m' !! name = Some p →
    live = true ∧
    ∃ n lbls, name = controller_name n ∧ p = sync_identity_params lbls.

Definition registered (s : State) : Prop :=
  registered_with (non_nil (IdentityAllocator s)) (identityControllerManager s).

(** Every count of the table is a [uint]. *)
Definition bounded_with (rc : option (gmap N N)) : Prop :=
  ∀ rc' n c, rc = Some rc' → rc' !! n = Some c → (c < uint_modulus)%N.

Definition bounded (s : State) : Prop := bounded_with (idPoolRefCount s).

(** The controller of the identity [n], if the manager has one. *)
Definition controller_of (s : State) (n : N) : option ControllerParams :=
  identityControllerManager s ≫= (.!! controller_name n).

(** The events of a successful [Close]. *)
Definition close_events : list Event :=
  [Lock setupMutex;
   Lock identityRefCountMutex;
   MakeRefCount;
   RemoveAllAndWait;
   Unlock identityRefCountMutex;
   CallDelete;
   WatcherStop;
   MakeInitialized;
   Unlock setupMutex].

(** The package variables after a successful [Close]. *)
Definition closed (wk : WellKnown) (evs : list Event) : State :=
  {| IdentityAllocator := None; identityAllocatorInitialized := false;
     localIdentities := None; watcher := false;
     identityControllerManager := Some ∅; idPoolRefCount := Some ∅;
     wellKnown := wk; trace := evs |}.

(** The package variables after a successful [InitIdentityAllocator]. *)
Definition initialised (a : Allocator) (wk : WellKnown) (evs : list Event)
  : State :=
  {| IdentityAllocator := Some a; identityAllocatorInitialized := true;
     localIdentities := Some (newLocalIdentityCache 1 0xFFFFFF);
     watcher := true;
     identityControllerManager := Some ∅; idPoolRefCount := Some ∅;
     wellKnown := wk; trace := evs |}.

(** [k] calls of [AllocateIdentity], and of [Release], one after the
    other. *)
Definition allocations ctx lbls (k : nat) (s : State) : State :=
  Nat.iter k (after (OpAllocateIdentity ctx lbls)) s.

Definition releases ctx id (k : nat) (s : State) : State :=
  Nat.iter k (after (OpRelease ctx id)) s.

End MoreStatements.

Global Arguments registered_with : simpl never.
Global Arguments bounded_with : simpl never.
Global Arguments controller_of : simpl never.

(** ** The critical sections, goroutine by goroutine

    Lines 225-252 of [AllocateIdentity], 292-302 of [Release] and 152-155
    of [Close], one statement at a time, for any number of goroutines that
    share [identityRefCountMutex], [idPoolRefCount] and the controller
    manager of a live allocator (the map and the manager are not nil). A
    goroutine of [AllocateIdentity] or [Release] enters with the identity
    the backend gave it. *)
Section Interleaving.
Context `{C : Collaborators}.

(** The statement a goroutine executes next. *)
Inductive Pc :=
(* AllocateIdentity *)
| ALock (id : N) (lbls : Labels)      (* identityRefCountMutex.Lock() *)
| ARead (id : N) (lbls : Labels)      (* refCountNew := idPoolRefCount[id] == 0 *)
| AArm (id : N) (lbls : Labels) (refCountNew : bool)
                                      (* if refCountNew { UpdateController(..) } *)
| AIncrRead (id : N)                  (* idPoolRefCount[id]++, the read *)
| AIncrWrite (id : N) (v : N)         (* idPoolRefCount[id]++, the write *)
| AUnlock (id : N)                    (* identityRefCountMutex.Unlock() *)
| AReturn (id : N)
(* Release *)
| RLock (idty : N)                    (* identityRefCountMutex.Lock() *)
| RRead (idty : N)                    (* refCount := idPoolRefCount[idty] *)
| RTest (idty : N) (refCount : N)     (* if refCount > 0 { if refCount == 1
                                         { RemoveControllerAndWait(..) } .. } *)
| RDecrRead (idty : N)                (* idPoolRefCount[idty]--, the read *)
| RDecrWrite (idty : N) (v : N)       (* idPoolRefCount[idty]--, the write *)
| RUnlock (idty : N)                  (* identityRefCountMutex.Unlock() *)
| RReturn (idty : N)
(* Close *)
| CLock                               (* identityRefCountMutex.Lock() *)
| CReset                              (* idPoolRefCount = map[idpool.ID]uint{} *)
| CRemoveAll                          (* identityControllerManager.RemoveAllAndWait() *)
| CUnlock                             (* identityRefCountMutex.Unlock() *)
| CReturn.

(** What the goroutines share. *)
Record Shared := {
  locked : bool;
  counts : gmap N N;
  controllers : gmap string ControllerParams;
  events : list Event
}.

(** [idPoolRefCount[n]] *)
Definition count_of (sh : Shared) (n : N) : N := default 0 (counts sh !! n).

Definition set_locked (b : bool) (sh : Shared) : Shared :=
  {| locked := b; counts := counts sh; controllers := controllers sh;
     events := events sh |}.
Definition set_counts (rc : gmap N N) (sh : Shared) : Shared :=
  {| locked := locked sh; counts := rc; controllers := controllers sh;
     events := events sh |}.
Definition set_controllers (m : gmap string ControllerParams) (sh : Shared)
  : Shared :=
  {| locked := locked sh; counts := counts sh; controllers := m;
     events := events sh |}.
Definition record (e : Event) (sh : Shared) : Shared :=
  {| locked := locked sh; counts := counts sh; controllers := controllers sh;
     events := events sh ++ [e] |}.

(** One statement of a goroutine; [None] when it cannot run: [Lock] on a
    locked mutex waits, a goroutine that has left has nothing to run. *)
Definition step_pc (pc : Pc) (sh : Shared) : option (Pc * Shared) :=
  match pc with
  | ALock id lbls =>
      if locked sh then None
      else Some (ARead id lbls,
                 set_locked true (record (Lock identityRefCountMutex) sh))
  | ARead id lbls => Some (AArm id lbls (count_of sh id =? 0)%N, sh)
  | AArm id lbls refCountNew =>
      if refCountNew
      then Some (AIncrRead id,
                 set_controllers
                   (<[controller_name id := sync_identity_params lbls]>
                      (controllers sh))
                   (record (UpdateController (controller_name id)) sh))
      else Some (AIncrRead id, sh)
  | AIncrRead id => Some (AIncrWrite id (count_of sh id), sh)
  | AIncrWrite id v =>
      Some (AUnlock id,
            set_counts (<[id := uint_incr v]> (counts sh))
              (record (StoreRefCount id (uint_incr v)) sh))
  | AUnlock id =>
      Some (AReturn id,
            set_locked false (record (Unlock identityRefCountMutex) sh))
  | AReturn _ => None
  | RLock idty =>
      if locked sh then None
      else Some (RRead idty,
                 set_locked true (record (Lock identityRefCountMutex) sh))
  | RRead idty => Some (RTest idty (count_of sh idty), sh)
  | RTest idty refCount =>
      if (0 <? refCount)%N
      then
        if (refCount =? 1)%N
        then Some (RDecrRead idty,
                   set_controllers
                     (delete (controller_name idty) (controllers sh))
                     (record (RemoveControllerAndWait (controller_name idty)) sh))
        else Some (RDecrRead idty, sh)
      else Some (RUnlock idty, sh)
  | RDecrRead idty => Some (RDecrWrite idty (count_of sh idty), sh)
  | RDecrWrite idty v =>
      Some (RUnlock idty,
            set_counts (<[idty := uint_decr v]> (counts sh))
              (record (StoreRefCount idty (uint_decr v)) sh))
  | RUnlock idty =>
      Some (RReturn idty,
            set_locked false (record (Unlock identityRefCountMutex) sh))
  | RReturn _ => None
  | CLock =>
      if locked sh then None
      else Some (CReset,
                 set_locked true (record (Lock identityRefCountMutex) sh))
  | CReset => Some (CRemoveAll, set_counts ∅ (record MakeRefCount sh))
  | CRemoveAll => Some (CUnlock, set_controllers ∅ (record RemoveAllAndWait sh))
  | CUnlock =>
      Some (CReturn,
            set_locked false (record (Unlock identityRefCountMutex) sh))
  | CReturn => None
  end.

(** The goroutines and what they share. *)
Definition Config : Type := list Pc * Shared.

(** The scheduler lets goroutine [i] run one statement; nothing happens
    when it cannot run. *)
Definition step (i : nat) (cfg : Config) : Config :=
  match cfg.1 !! i with
  | Some pc =>
      match step_pc pc cfg.2 with
      | Some (pc', sh') => (<[i := pc']> cfg.1, sh')
      | None => cfg
      end
  | None => cfg
  end.

(** A schedule names the goroutine that runs next, step after step. *)
Definition run (schedule : list nat) (cfg : Config) : Config :=
  foldl (λ c i, step i c) cfg schedule.

(** The goroutine is between its [Lock] and its [Unlock]. *)
Definition in_section (pc : Pc) : bool :=
  match pc with
  | ALock _ _ | AReturn _ | RLock _ | RReturn _ | CLock | CReturn => false
  | _ => true
  end.

(** The goroutine has not started. *)
Definition at_entry (pc : Pc) : bool :=
  match pc with
  | ALock _ _ | RLock _ | CLock => true
  | _ => false
  end.

(** [k] statements of one goroutine, no other goroutine running between
    them. *)
Fixpoint steps (k : nat) (pc : Pc) (sh : Shared) : option (Pc * Shared) :=
  match k with
  | O => Some (pc, sh)
  | S k' =>
      match step_pc pc sh with
      | Some (pc', sh') => steps k' pc' sh'
      | None => None
      end
  end.

(** The statements of one goroutine to its end, no other goroutine running
    between them. *)
Fixpoint complete (fuel : nat) (pc : Pc) (sh : Shared) : Shared :=
  match fuel with
  | O => sh
  | S fuel' =>
      match step_pc pc sh with
      | Some (pc', sh') => complete fuel' pc' sh'
      | None => sh
      end
  end.

(** The number of statements a goroutine has left, at most. *)
Definition rank (pc : Pc) : nat :=
  match pc with
  | ALock _ _ | RLock _ => 6
  | ARead _ _ | RRead _ => 5
  | AArm _ _ _ | RTest _ _ | CLock => 4
  | AIncrRead _ | RDecrRead _ | CReset => 3
  | AIncrWrite _ _ | RDecrWrite _ _ | CRemoveAll => 2
  | AUnlock _ | RUnlock _ | CUnlock => 1
  | AReturn _ | RReturn _ | CReturn => 0
  end.

(** The whole critical section of the goroutine at [entry], as one. *)
Definition section_of (entry : Pc) (sh : Shared) : Shared :=
  complete (rank entry) entry sh.

(** The critical sections of the goroutines [order] of [threads], each as
    one, one after the other. *)
Definition serial (threads : list Pc) (order : list nat) (sh : Shared)
  : Shared :=
  foldl (λ sh i, if threads !! i is Some entry then section_of entry sh else sh)
    sh order.

(** The shared variables of a package state with the table [rc] and the
    manager [m], the mutex free. *)
Definition shared_of (rc : gmap N N) (m : gmap string ControllerParams)
  : Shared :=
  {| locked := false; counts := rc; controllers := m; events := [] |}.

(** Every identity with a positive count has its keep-alive controller. *)
Definition armed_shared (sh : Shared) : Prop :=
  ∀ n, (0 < count_of sh n)%N →
       is_Some (controllers sh !! controller_name n).

(** An identity has its keep-alive controller exactly while its count is
    positive. *)
Definition matched (sh : Shared) : Prop :=
  ∀ n, is_Some (controllers sh !! controller_name n) ↔ (0 < count_of sh n)%N.

(** Every count is a [uint]. *)
Definition bounded_shared (sh : Shared) : Prop :=
  ∀ n, (count_of sh n < 2 ^ 64)%N.

(** The configuration [cfg] of the goroutines [threads] started on [sh0] is
    what running whole critical sections one after the other gives: the
    goroutines [order] have taken the mutex, in this order, the others have
    not moved. While the mutex is free no goroutine is in its critical
    section and the shared variables are those after the sections of
    [order], run one by one. While it is held, exactly one goroutine, the
    last of [order], is in its critical section, and the shared variables
    are those after the sections of the goroutines before it, followed by
    the [k] statements of its own section it has executed. *)
Definition Serialised (threads : list Pc) (sh0 : Shared) (cfg : Config)
  : Prop :=
  ∃ order : list nat,
    NoDup order ∧
    length cfg.1 = length threads ∧
    (∀ j, j ∈ order → ∃ pc, cfg.1 !! j = Some pc ∧ at_entry pc = false) ∧
    (∀ j, j ∉ order → cfg.1 !! j = threads !! j) ∧
    ((locked cfg.2 = false ∧
      (∀ j pc, cfg.1 !! j = Some pc → in_section pc = false) ∧
      cfg.2 = serial threads order sh0)
     ∨
     (locked cfg.2 = true ∧
      ∃ order' i entry pc k,
        order = (order' ++ [i])%list ∧
        threads !! i = Some entry ∧
        cfg.1 !! i = Some pc ∧ in_section pc = true ∧
        (∀ j pc', j ≠ i → cfg.1 !! j = Some pc' → in_section pc' = false) ∧
        steps k entry (serial threads order' sh0) = Some (pc, cfg.2))).

(** The critical section of [AllocateIdentity] for the identity [id], run
    as one on [sh]: with [c] the count of [id], the count [c + 1] (modulo
    2^64) is stored; the controller of [id] is created when [c] is zero,
    and then the count becomes one; otherwise the manager is not touched. *)
Definition allocate_section (sh : Shared) (id : N) (lbls : Labels) : Prop :=
  let c := count_of sh id in
  let sec := section_of (ALock id lbls) sh in
  locked sec = false ∧
  counts sec = <[id := ((c + 1) mod 2 ^ 64)%N]> (counts sh) ∧
  (c = 0%N →
   count_of sec id = 1%N ∧
   controllers sec =
     <[controller_name id := sync_identity_params lbls]> (controllers sh) ∧
   events sec =
     (events sh ++
      [Lock identityRefCountMutex; UpdateController (controller_name id);
       StoreRefCount id 1; Unlock identityRefCountMutex])%list) ∧
  (c ≠ 0%N →
   controllers sec = controllers sh ∧
   events sec =
     (events sh ++
      [Lock identityRefCountMutex;
       StoreRefCount id ((c + 1) mod 2 ^ 64)%N;
       Unlock identityRefCountMutex])%list).

(** The critical section of [Release] for the identity [idty], run as one
    on [sh]: with [c] the count of [idty], a [uint], nothing changes when
    [c] is zero; the controller of [idty] is removed when [c] is one, and
    then the count becomes zero; the count [c - 1] is stored when [c] is
    above one, and the manager is not touched. *)
Definition release_section (sh : Shared) (idty : N) : Prop :=
  let c := count_of sh idty in
  let sec := section_of (RLock idty) sh in
  locked sec = false ∧
  (c = 0%N →
   counts sec = counts sh ∧ controllers sec = controllers sh ∧
   events sec =
     (events sh ++
      [Lock identityRefCountMutex; Unlock identityRefCountMutex])%list) ∧
  (c = 1%N →
   counts sec = <[idty := 0%N]> (counts sh) ∧
   controllers sec = delete (controller_name idty) (controllers sh) ∧
   events sec =
     (events sh ++
      [Lock identityRefCountMutex;
       RemoveControllerAndWait (controller_name idty);
       StoreRefCount idty 0; Unlock identityRefCountMutex])%list) ∧
  ((1 < c < 2 ^ 64)%N →
   counts sec = <[idty := (c - 1)%N]> (counts sh) ∧
   controllers sec = controllers sh ∧
   events sec =
     (events sh ++
      [Lock identityRefCountMutex; StoreRefCount idty (c - 1)%N;
       Unlock identityRefCountMutex])%list).

(** The critical section of [Close], run as one on [sh]: the table and the
    manager are emptied. *)
Definition close_section (sh : Shared) : Prop :=
  let sec := section_of CLock sh in
  locked sec = false ∧ counts sec = ∅ ∧ controllers sec = ∅ ∧
  events sec =
    (events sh ++
     [Lock identityRefCountMutex; MakeRefCount; RemoveAllAndWait;
      Unlock identityRefCountMutex])%list.

(** [AllocateIdentity] does to the table, the manager and the trace what
    its critical section, run as one, does to the shared variables. *)
Definition AllocateIdentity_section (ctx : Context) (lbls : Labels)
    (s : State) (n : N) (isNew : bool) : Prop :=
  ∃ rc m w,
    idPoolRefCount s = Some rc ∧ identityControllerManager s = Some m ∧
    wait_events w ∧
    let sec := section_of (ALock n lbls) (shared_of rc m) in
    let s' := final (AllocateIdentity ctx lbls s) in
    count_of (shared_of rc m) n = refCount_of s n ∧
    idPoolRefCount s' = Some (counts sec) ∧
    identityControllerManager s' = Some (controllers sec) ∧
    trace s' =
      (trace s
       ++ [Log Debug "Resolving identity" [FIdentityLabels lbls]]
       ++ w ++ [CallAllocate lbls]
       ++ events sec
       ++ [Log Debug "Resolved identity"
             [FIdentity n; FIdentityLabels lbls; FIsNew isNew]])%list.

(** [Release] does to the table, the manager and the trace what its
    critical section, run as one, does to the shared variables. *)
Definition Release_section (ctx : Context) (id : Identity Labels) (s : State)
  : Prop :=
  let idty := uint32 (ID id) in
  ∃ rc m w,
    idPoolRefCount s = Some rc ∧ identityControllerManager s = Some m ∧
    wait_events w ∧
    let sec := section_of (RLock idty) (shared_of rc m) in
    let s' := final (Release ctx id s) in
    count_of (shared_of rc m) idty = refCount_of s idty ∧
    idPoolRefCount s' = Some (counts sec) ∧
    identityControllerManager s' = Some (controllers sec) ∧
    trace s' =
      (trace s ++ w ++ [CallRelease (Labels_of id)] ++ events sec)%list.

(** [Close] does to the table, the manager and the trace what its critical
    section, run as one, does to the shared variables. *)
Definition Close_section (s : State) : Prop :=
  ∃ rc m,
    idPoolRefCount s = Some rc ∧ identityControllerManager s = Some m ∧
    let sec := section_of CLock (shared_of rc m) in
    let s' := final (Close s) in
    idPoolRefCount s' = Some (counts sec) ∧
    identityControllerManager s' = Some (controllers sec) ∧
    trace s' =
      (trace s ++ [Lock setupMutex] ++ events sec
       ++ [CallDelete; WatcherStop; MakeInitialized; Unlock setupMutex])%list.

(** Goroutines at the entries [threads] of their critical sections, started
    on the table [rc] and the manager [m] and run by [schedule]: at every
    step the run is serialised and every count is a [uint]; whenever the
    mutex is free, every identity with a positive count has its
    controller; and an identity has its controller exactly while its count
    is positive, when this held at the start and no count can reach 2^64. *)
Definition goroutines (rc : gmap N N) (m : gmap string ControllerParams)
    (threads : list Pc) (schedule : list nat) : Prop :=
  let sh0 := shared_of rc m in
  let cfg := run schedule (threads, sh0) in
  Serialised threads sh0 cfg ∧
  bounded_shared cfg.2 ∧
  (locked cfg.2 = false → armed_shared cfg.2) ∧
  (matched sh0 →
   (∀ n, (count_of sh0 n + N.of_nat (length threads) < 2 ^ 64)%N) →
   locked cfg.2 = false → matched cfg.2).

End Interleaving.

(** ** A concrete deployment

    One node with a reserved identity for the host, node-local identities
    for CIDR labels and a kvstore that knows two keys and cannot be reached
    for a third. Used to run the operations on concrete inputs. *)
Module Scenario.

Definition kv_id (l : string) : N :=
  if String.eqb l "k8s:app=foo" then 256 else 257.

#[export] Instance node : Collaborators := {|
  Labels := string;
  WellKnown := unit;
  InitWellKnownIdentities := λ wk, wk;
  RequiresGlobalIdentity := λ l,
    negb (String.eqb l "reserved:host" || String.eqb l "cidr:10.0.0.0/8");
  IsReserved := λ _ i, (ID i <? 256)%N;
  LookupReservedIdentityByLabels := λ _ l,
    if String.eqb l "reserved:host"
    then Some (NewIdentity 1 "reserved:host") else None;
  localIdentityCache := N;
  newLocalIdentityCache := λ minID _, (minID + 16777216)%N;
  lookupOrCreate := λ l next,
    ((Some (NewIdentity next l), true, None), N.succ next);
  release := λ _ next, (true, next);
  Allocator := list string;
  NewAllocator := λ suffix,
    if String.eqb suffix "" then inr "empty node suffix" else inl [];
  Allocate := λ _ l keys,
    if String.eqb l "k8s:app=lost"
    then ((0%N, false, Some "kvstore unreachable"), keys)
    else ((kv_id l, negb (existsb (String.eqb l) keys), None), l :: keys);
  Allocator_Release := λ _ l keys,
    if String.eqb l "k8s:app=lost"
    then ((false, Some "kvstore unreachable"), keys)
    else ((true, None), keys);
  WaitForInitialSync := λ ctx _,
    if ctx_done ctx then Some (ctx_err ctx) else None;
  select_ready_first := λ _, true
|}.

Definition host : Labels := "reserved:host".
Definition cidr : Labels := "cidr:10.0.0.0/8".
Definition foo : Labels := "k8s:app=foo".
Definition bar : Labels := "k8s:app=bar".
Definition lost : Labels := "k8s:app=lost".

Definition background : Context := {| ctx_done := false; ctx_err := "" |}.
Definition cancelled : Context :=
  {| ctx_done := true; ctx_err := "context canceled" |}.

Definition owner : IdentityAllocatorOwner := {| GetNodeSuffix := "node1" |}.

(** The state at process start. *)
Definition start : State := initial (() : WellKnown).

(** The state after a successful [InitIdentityAllocator]. *)
Definition live : State := after (OpInitIdentityAllocator owner) start.

Definition id_foo : Identity Labels := NewIdentity 256 foo.
Definition id_bar : Identity Labels := NewIdentity 257 bar.
Definition id_lost : Identity Labels := NewIdentity 258 lost.

(** [foo] and [bar] are held once each. *)
Definition held : State :=
  after (OpAllocateIdentity background bar)
    (after (OpAllocateIdentity background foo) live).

(** The batch [id1, id2 (fails), id3] of the specification, released while
    [foo] and [bar] are held, and its three attempts. *)
Definition batch : list (option (Identity Labels)) :=
  [Some id_foo; Some id_lost; Some id_bar].

Definition attempt_foo : Attempt :=
  (id_foo, (true, None), final (Release background id_foo held)).
Definition attempt_lost : Attempt :=
  (id_lost, (false, Some "kvstore unreachable"),
   final (Release background id_lost (after_attempt attempt_foo))).
Definition attempt_bar : Attempt :=
  (id_bar, (true, None),
   final (Release background id_bar (after_attempt attempt_lost))).

(** Three allocations of one global label set, then three releases. *)
Definition thrice : State :=
  after (OpAllocateIdentity background foo)
    (after (OpAllocateIdentity background foo)
       (after (OpAllocateIdentity background foo) live)).

Definition released : State :=
  after (OpRelease background id_foo)
    (after (OpRelease background id_foo)
       (after (OpRelease background id_foo) thrice)).

(** An owner without node suffix: the backend cannot be constructed. *)
Definition nameless : IdentityAllocatorOwner := {| GetNodeSuffix := "" |}.

(** The local identity of [cidr] after initialisation. *)
Definition id_cidr : Identity Labels := NewIdentity 16777217 cidr.

(** Another cluster's kvstore, by name; a remote cache records the store
    and the path it mirrors. *)
Definition WatchRemoteKVStore (backend path : string) (a : Allocator)
  : (string * string) * Allocator :=
  ((backend, path), a).

Definition IdentitiesPath : string := "cilium/state/identities/v1".

(** Three goroutines on the identity 256 of [foo], two in
    [AllocateIdentity] and one in [Release], and a schedule: the first
    takes the mutex, the others try in vain while it is in its critical
    section, then the second and the third run theirs. *)
Definition racers : list Pc := [ALock 256 foo; ALock 256 foo; RLock 256].

Definition turns : list nat :=
  [0; 1; 0; 2; 0; 0; 1; 0; 2; 0; 1; 1; 1; 2; 1; 1; 1; 2; 2; 2; 2; 2; 2]%nat.

End Scenario.

(** ** Facts on the Go primitives *)
Section GoFacts.

Lemma uint_incr_zero : uint_incr 0 = 1%N.
Proof. reflexivity. Qed.

Lemma uint_incr_small (x : N) :
  (x + 1 < uint_modulus)%N → uint_incr x = (x + 1)%N.
Proof. intros H. unfold uint_incr. by apply N.mod_small. Qed.

(** A positive [uint] decrements without wrapping. *)
Lemma uint_decr_pos (x : N) :
  (0 < x < uint_modulus)%N → uint_decr x = (x - 1)%N.
Proof.
  intros H. unfold uint_decr.
  replace (x + uint_modulus - 1)%N with ((x - 1) + 1 * uint_modulus)%N by lia.
  rewrite N.Div0.mod_add. apply N.mod_small. lia.
Qed.

Lemma uint_decr_one : uint_decr 1 = 0%N.
Proof. reflexivity. Qed.

Lemma append_cons (c : ascii) (s t : string) :
  String c s +:+ t = String c (s +:+ t).
Proof. reflexivity. Qed.

Lemma append_last_inj (c : ascii) (s1 s2 : string) :
  s1 +:+ String c "" = s2 +:+ String c "" → s1 = s2.
Proof.
  revert s2. induction s1 as [|a s1 IH]; intros [|b s2] H.
  - done.
  - rewrite append_cons in H. change ("" +:+ String c "") with (String c "") in H.
    injection H as _ H. destruct s2; discriminate.
  - rewrite append_cons in H. change ("" +:+ String c "") with (String c "") in H.
    injection H as _ H. destruct s1; discriminate.
  - rewrite !append_cons in H. injection H as -> H. f_equal. by apply IH.
Qed.

(** [%d] prints different numbers differently. *)
Lemma fmt_d_inj (x y : N) : fmt_d x = fmt_d y → x = y.
Proof. unfold fmt_d. apply (inj pretty). Qed.

End GoFacts.

(** ** Properties *)
Section Properties.
Context `{C : Collaborators}.

Implicit Types (s : State) (ctx : Context) (lbls : Labels)
  (id : Identity Labels) (evs : list Event).

(** *** The trace only grows by appending *)

Lemma append_trace_nil s : append_trace [] s = s.
Proof. destruct s; unfold append_trace; simpl. by rewrite app_nil_r. Qed.

Lemma append_trace_app evs1 evs2 s :
  append_trace evs2 (append_trace evs1 s) = append_trace (evs1 ++ evs2) s.
Proof. unfold append_trace; simpl. by rewrite app_assoc. Qed.

(** Two states with the same components are equal. *)
Lemma State_ext s1 s2 :
  IdentityAllocator s1 = IdentityAllocator s2 →
  identityAllocatorInitialized s1 = identityAllocatorInitialized s2 →
  localIdentities s1 = localIdentities s2 →
  watcher s1 = watcher s2 →
  identityControllerManager s1 = identityControllerManager s2 →
  idPoolRefCount s1 = idPoolRefCount s2 →
  wellKnown s1 = wellKnown s2 →
  trace s1 = trace s2 →
  s1 = s2.
Proof. destruct s1, s2; simpl; intros; by subst. Qed.

(** Closes an equation between two states built from the same state by
    setters and trace extensions. *)
Ltac same_state :=
  apply State_ext; simpl; rewrite <- ?app_assoc; simpl; try done.

(** Unfolding one step of a program. *)
Ltac step :=
  unfold mbind, M_bind, mret, M_ret, get, modify, emit, log, log_Panic,
    log_Fatal, panic, exit, block; simpl.

Ltac unfold_ops :=
  unfold InitIdentityAllocator, Close, AllocateIdentity, Release,
    WaitForInitialIdentities, select_initialized,
    localIdentities_lookupOrCreate, localIdentities_release,
    IdentityAllocator_Allocate, IdentityAllocator_Release,
    IdentityAllocator_Delete, close_identityAllocatorInitialized,
    idPoolRefCount_incr, idPoolRefCount_decr, idPoolRefCount_get,
    idPoolRefCount_set, Manager_UpdateController,
    Manager_RemoveControllerAndWait, Manager_RemoveAllAndWait, defer,
    refCount_of.

(** Case analysis on a test of the program that is not itself made of
    tests, so that the branches are taken in program order. *)
Ltac case_inner :=
  match goal with
  | |- context [match ?x with _ => _ end] =>
      lazymatch x with
      | context [match _ with _ => _ end] => fail
      | _ => destruct x eqn:?
      end
  end.

(** C5: for every label set matching a reserved entry and every state of
    the package (initialised or not), [AllocateIdentity] returns that
    identity with [isNew = false] and a nil error; the state is unchanged
    but for two log lines: no call to the backend, no reference counting. *)
Theorem AllocateIdentity_reserved ctx lbls s reservedIdentity :
  LookupReservedIdentityByLabels (wellKnown s) lbls = Some reservedIdentity →
  AllocateIdentity ctx lbls s =
    Returns (Some reservedIdentity, false, None)
      (append_trace
         [Log Debug "Resolving identity" [FIdentityLabels lbls];
          Log Debug "Resolved reserved identity"
            [FIdentity (ID reservedIdentity); FIdentityLabels lbls; FIsNew false]]
         s).
Proof.
  intros Hres. unfold AllocateIdentity. step. rewrite Hres. step.
  by rewrite append_trace_app.
Qed.

(** *** The readiness gate *)

(** With a live handle the wait returns as soon as the ready channel is
    closed or the context is done; it changes no package variable. *)
Lemma WaitForInitialIdentities_returns ctx s a :
  IdentityAllocator s = Some a →
  identityAllocatorInitialized s = true ∨ ctx_done ctx = true →
  ∃ e w, wait_events w ∧
    WaitForInitialIdentities ctx s = Returns e (append_trace w s).
Proof.
  intros Ha Hready. unfold WaitForInitialIdentities, select_initialized. step.
  destruct (identityAllocatorInitialized s) eqn:Hi, (ctx_done ctx) eqn:Hd;
    step; try (destruct Hready; discriminate).
  - destruct (select_ready_first ctx); step.
    + rewrite Ha. step. eexists _, _. split; [by right|done].
    + eexists _, []. split; [by left|]. by rewrite append_trace_nil.
  - rewrite Ha. step. eexists _, _. split; [by right|done].
  - eexists _, []. split; [by left|]. by rewrite append_trace_nil.
Qed.

(** Without a handle and with the ready channel open, a done context makes
    the wait return the cancellation error. *)
Lemma WaitForInitialIdentities_cancelled ctx s :
  identityAllocatorInitialized s = false → ctx_done ctx = true →
  WaitForInitialIdentities ctx s =
    Returns (Some ("initial identity sync was cancelled: " +:+ ctx_err ctx)) s.
Proof.
  intros Hi Hd. unfold WaitForInitialIdentities, select_initialized. step.
  by rewrite Hi, Hd.
Qed.

(** *** Local scope *)

(** C2 (as amended): for every label set that is not reserved and does not
    require a global identity, when the local identity cache exists
    ([localIdentities] is not nil) [AllocateIdentity] calls the cache's
    [lookupOrCreate] and returns its result unchanged; only the cache and
    the trace change, and the trace shows no call of the backend. *)
Theorem AllocateIdentity_local ctx lbls s l :
  LookupReservedIdentityByLabels (wellKnown s) lbls = None →
  RequiresGlobalIdentity lbls = false →
  localIdentities s = Some l →
  AllocateIdentity ctx lbls s =
    Returns (lookupOrCreate lbls l).1
      (set_localIdentities (Some (lookupOrCreate lbls l).2)
         (append_trace
            [Log Debug "Resolving identity" [FIdentityLabels lbls];
             CallLookupOrCreate lbls] s)).
Proof.
  intros Hres Hglobal Hl. unfold AllocateIdentity. step.
  rewrite Hres, Hglobal, Hl. simpl.
  unfold localIdentities_lookupOrCreate. step. rewrite Hl. step.
  by rewrite append_trace_app.
Qed.

(** *** Global scope *)

Lemma global_path_test lbls s :
  global_path lbls s →
  negb (RequiresGlobalIdentity lbls)
    && bool_decide (is_Some (localIdentities s)) = false.
Proof.
  intros [-> | ->]; [done|]. rewrite andb_false_iff. right.
  apply bool_decide_eq_false. by intros [? ?].
Qed.

(** Runs a global-scope call up to the backend call, given the hypotheses
    [Hpath : global_path _ s], [Ha : IdentityAllocator s = Some _] and
    [Hgate : gate_open ctx s]; leaves the events of the wait as [w]. *)
Ltac to_backend Hpath Ha Hgate w Hw :=
  step; rewrite (global_path_test _ _ Hpath);
  match goal with
  | |- context [WaitForInitialIdentities ?ctx ?s0] =>
      let e := fresh "e" in
      let Hwait := fresh "Hwait" in
      destruct (WaitForInitialIdentities_returns ctx s0 _ Ha Hgate)
        as (e & w & Hw & Hwait);
      rewrite Hwait; clear Hwait
  | |- context [WaitForInitialIdentities ?ctx ?s0] =>
      let e := fresh "e" in
      let Hwait := fresh "Hwait" in
      destruct (WaitForInitialIdentities_returns ctx
                  s0 _ (Ha : IdentityAllocator s0 = _) Hgate)
        as (e & w & Hw & Hwait);
      rewrite Hwait; clear Hwait
  end;
  simpl; rewrite Ha; step.

Lemma AllocateIdentity_backend_error ctx lbls s a (id : N) isNew err :
  LookupReservedIdentityByLabels (wellKnown s) lbls = None →
  global_path lbls s →
  IdentityAllocator s = Some a →
  gate_open ctx s →
  (Allocate ctx lbls a).1 = (id, isNew, Some err) →
  ∃ s', AllocateIdentity ctx lbls s = Returns (None, false, Some err) s' ∧
        idPoolRefCount s' = idPoolRefCount s ∧
        identityControllerManager s' = identityControllerManager s.
Proof.
  intros Hres Hpath Ha Hgate Hcall. unfold AllocateIdentity.
  step. rewrite Hres.
  to_backend Hpath Ha Hgate w Hw.
  unfold IdentityAllocator_Allocate. step. rewrite Ha. step.
  rewrite Hcall. step. eauto.
Qed.

Lemma Release_backend_error ctx id s a lastUse err :
  IsReserved (wellKnown s) id = false →
  global_path (Labels_of id) s →
  IdentityAllocator s = Some a →
  gate_open ctx s →
  (Allocator_Release ctx (Labels_of id) a).1 = (lastUse, Some err) →
  ∃ s', Release ctx id s = Returns (false, Some err) s' ∧
        idPoolRefCount s' = idPoolRefCount s ∧
        identityControllerManager s' = identityControllerManager s.
Proof.
  intros Hres Hpath Ha Hgate Hcall. unfold Release.
  step. rewrite Hres.
  to_backend Hpath Ha Hgate w Hw.
  unfold IdentityAllocator_Release. step. rewrite Ha. step.
  rewrite Hcall. step. eauto.
Qed.

(** *** Reference counts and keep-alive controllers *)

Lemma AllocateIdentity_success ctx lbls s a m rc (n : N) isNew :
  LookupReservedIdentityByLabels (wellKnown s) lbls = None →
  global_path lbls s →
  IdentityAllocator s = Some a →
  gate_open ctx s →
  identityControllerManager s = Some m →
  idPoolRefCount s = Some rc →
  (Allocate ctx lbls a).1 = (n, isNew, None) →
  ∃ w, wait_events w ∧
    AllocateIdentity ctx lbls s =
      Returns (Some (NewIdentity (NumericIdentity n) lbls), isNew, None)
        (set_idPoolRefCount (Some (<[n := uint_incr (refCount_of s n)]> rc))
           (set_identityControllerManager
              (Some (if (refCount_of s n =? 0)%N
                     then <[controller_name n := sync_identity_params lbls]> m
                     else m))
              (set_IdentityAllocator (Some (Allocate ctx lbls a).2)
                 (append_trace
                    ([Log Debug "Resolving identity" [FIdentityLabels lbls]]
                     ++ w ++ [CallAllocate lbls]
                     ++ arm_events n (refCount_of s n)
                     ++ [Log Debug "Resolved identity"
                           [FIdentity n; FIdentityLabels lbls; FIsNew isNew]])
                    s)))).
Proof.
  intros Hres Hpath Ha Hgate Hm Hrc Hcall. unfold AllocateIdentity.
  step. rewrite Hres.
  to_backend Hpath Ha Hgate w Hw. exists w. split; [done|].
  unfold IdentityAllocator_Allocate. step. rewrite Ha. step.
  rewrite Hcall. step.
  unfold idPoolRefCount_get, idPoolRefCount_incr, idPoolRefCount_get,
    idPoolRefCount_set, Manager_UpdateController, arm_events, refCount_of.
  step. rewrite Hrc.
  destruct (default 0 (rc !! n) =? 0)%N eqn:Hc; step; rewrite ?Hm; step;
    rewrite Hrc; step; f_equal; same_state.
Qed.

Lemma Release_success ctx id s a m rc lastUse :
  IsReserved (wellKnown s) id = false →
  global_path (Labels_of id) s →
  IdentityAllocator s = Some a →
  gate_open ctx s →
  identityControllerManager s = Some m →
  idPoolRefCount s = Some rc →
  (Allocator_Release ctx (Labels_of id) a).1 = (lastUse, None) →
  let idty := uint32 (ID id) in
  let refCount := refCount_of s idty in
  ∃ w, wait_events w ∧
    Release ctx id s =
      Returns (lastUse, None)
        (set_idPoolRefCount
           (Some (if (0 <? refCount)%N
                  then <[idty := uint_decr refCount]> rc else rc))
           (set_identityControllerManager
              (Some (if (refCount =? 1)%N
                     then delete (controller_name idty) m else m))
              (set_IdentityAllocator
                 (Some (Allocator_Release ctx (Labels_of id) a).2)
                 (append_trace
                    (w ++ [CallRelease (Labels_of id)]
                     ++ disarm_events idty refCount)
                    s)))).
Proof.
  intros Hres Hpath Ha Hgate Hm Hrc Hcall idty refCount.
  subst idty refCount. unfold Release.
  step. rewrite Hres.
  to_backend Hpath Ha Hgate w Hw. exists w. split; [done|].
  unfold IdentityAllocator_Release. step. rewrite Ha. step.
  rewrite Hcall. step.
  unfold idPoolRefCount_get, idPoolRefCount_decr, idPoolRefCount_get,
    idPoolRefCount_set, Manager_RemoveControllerAndWait, disarm_events,
    refCount_of.
  step. rewrite Hrc.
  set (c := default 0 (rc !! uint32 (ID id))).
  destruct (0 <? c)%N eqn:Hpos; step.
  - destruct (c =? 1)%N eqn:Hone; step; rewrite ?Hm; step;
      rewrite Hrc; step; f_equal; same_state.
  - assert ((c =? 1)%N = false) as ->
      by (apply N.eqb_neq; apply N.ltb_ge in Hpos; lia).
    f_equal. same_state.
Qed.

(** Whatever path [Release] takes, with a zero (or absent) count it leaves
    the count table and the controllers as they are. *)
Lemma Release_zero_count_frame ctx id s :
  refCount_of s (uint32 (ID id)) = 0%N →
  idPoolRefCount (final (Release ctx id s)) = idPoolRefCount s ∧
  identityControllerManager (final (Release ctx id s)) =
    identityControllerManager s.
Proof.
  intros Hzero. unfold refCount_of in Hzero. unfold_ops. step.
  repeat (case_inner; simpl in *; simplify_eq; try done);
    rewrite Hzero in *; discriminate.
Qed.

(** Distinct identities have distinct controller names. *)
Lemma controller_name_inj (n1 n2 : N) :
  controller_name n1 = controller_name n2 → n1 = n2.
Proof.
  unfold controller_name. intros H.
  apply (inj (String.app _)) in H. apply append_last_inj in H.
  by apply fmt_d_inj.
Qed.

(** *** Invariants of the package state *)

Ltac use_tests :=
  repeat match goal with H : ?x = _ |- context [?x] => rewrite H end.

Ltac run_cases :=
  unfold_ops; step;
  repeat (case_inner; simpl in *; simplify_eq; try done);
  use_tests; simpl; try done.

Lemma WaitForInitialIdentities_shape ctx s :
  shape (final (WaitForInitialIdentities ctx s)) = shape s.
Proof. unfold shape. run_cases. Qed.

Lemma AllocateIdentity_shape ctx lbls s :
  shape (final (AllocateIdentity ctx lbls s)) = shape s.
Proof. unfold shape. run_cases. Qed.

Lemma Release_shape ctx id s :
  shape (final (Release ctx id s)) = shape s.
Proof. unfold shape. run_cases. Qed.

Lemma coherent_shape s s' : shape s' = shape s → coherent s → coherent s'.
Proof. unfold shape, coherent. intros [= -> -> -> -> ->]. done. Qed.

Lemma coherent_initial wk : coherent (initial wk).
Proof. by split. Qed.

Lemma InitIdentityAllocator_coherent owner s :
  coherent s → coherent (final (InitIdentityAllocator owner s)).
Proof.
  unfold coherent. intros [Hready Hlive]. revert Hready Hlive.
  run_cases; intros; simplify_eq/=; intuition congruence.
Qed.

Lemma Close_coherent s : coherent s → coherent (final (Close s)).
Proof.
  unfold coherent. intros [Hready Hlive]. revert Hready Hlive.
  run_cases; intros; simplify_eq/=; intuition congruence.
Qed.

(** How [armed_with] follows the updates of the two maps. *)
Section ArmedWith.
Implicit Types (rc : gmap N N) (m : gmap string ControllerParams).

Lemma armed_with_nil om : armed_with None om.
Proof. intros n c [=]. Qed.

Lemma armed_with_empty om : armed_with (Some ∅) om.
Proof. intros n c ?; simplify_eq/=. Qed.

(** a first reference: the controller is created, then the count stored *)
Lemma armed_with_arm rc m n v p :
  armed_with (Some rc) (Some m) →
  armed_with (Some (<[n := v]> rc))
             (Some (<[controller_name n := p]> m)).
Proof.
  intros H n' c Hc Hpos. simpl in *.
  destruct (decide (n' = n)) as [->|Hne].
  - rewrite lookup_insert_eq. eauto.
  - rewrite lookup_insert_ne in Hc by done.
    rewrite lookup_insert_ne by (by intros ?%controller_name_inj).
    by apply (H n' c).
Qed.

(** the controller is created and the count is not stored *)
Lemma armed_with_update orc m name p :
  armed_with orc (Some m) → armed_with orc (Some (<[name := p]> m)).
Proof.
  intros H n c Hc Hpos. specialize (H n c Hc Hpos). simpl in *.
  destruct (decide (name = controller_name n)) as [->|Hne].
  - rewrite lookup_insert_eq. eauto.
  - by rewrite lookup_insert_ne.
Qed.

(** a count that was positive is overwritten *)
Lemma armed_with_store rc om n v :
  (0 < default 0 (rc !! n))%N →
  armed_with (Some rc) om → armed_with (Some (<[n := v]> rc)) om.
Proof.
  intros Hold H n' c Hc Hpos. simpl in *.
  destruct (decide (n' = n)) as [->|Hne].
  - destruct (rc !! n) as [c0|] eqn:Hc0; simpl in Hold; [|lia].
    by apply (H n c0).
  - rewrite lookup_insert_ne in Hc by done. by apply (H n' c).
Qed.

(** the last reference: the controller is removed, then zero stored *)
Lemma armed_with_disarm rc m n :
  armed_with (Some rc) (Some m) →
  armed_with (Some (<[n := 0%N]> rc))
             (Some (delete (controller_name n) m)).
Proof.
  intros H n' c Hc Hpos. simpl in *.
  destruct (decide (n' = n)) as [->|Hne].
  - rewrite lookup_insert_eq in Hc. simplify_eq. lia.
  - rewrite lookup_insert_ne in Hc by done.
    rewrite lookup_delete_ne by (by intros ?%controller_name_inj).
    by apply (H n' c).
Qed.

End ArmedWith.

Lemma armed_initial wk : armed (initial wk).
Proof. apply armed_with_nil. Qed.

Lemma InitIdentityAllocator_armed owner s :
  armed s → armed (final (InitIdentityAllocator owner s)).
Proof.
  unfold armed. intros H. revert H.
  run_cases; intros; use_tests; auto using armed_with_empty.
Qed.

Lemma Close_armed s : armed s → armed (final (Close s)).
Proof.
  unfold armed. intros H. revert H.
  run_cases; intros; use_tests; auto using armed_with_empty.
Qed.

Lemma WaitForInitialIdentities_armed ctx s :
  armed s → armed (final (WaitForInitialIdentities ctx s)).
Proof. unfold armed. intros H. revert H. run_cases. Qed.

(** The tests of the program on counts, as arithmetic facts. *)
Ltac tests_to_props :=
  repeat match goal with
  | H : (_ =? _)%N = true |- _ => apply N.eqb_eq in H
  | H : (_ =? _)%N = false |- _ => apply N.eqb_neq in H
  | H : (_ <? _)%N = true |- _ => apply N.ltb_lt in H
  | H : (_ <? _)%N = false |- _ => apply N.ltb_ge in H
  end.

Ltac armed_step :=
  first
    [ assumption
    | apply armed_with_nil
    | apply armed_with_empty
    | by apply armed_with_arm
    | by apply armed_with_update
    | apply armed_with_store; [lia | assumption]
    | match goal with
      | H : default 0 (_ !! _) = 1%N |- _ =>
          rewrite H; rewrite uint_decr_one; by apply armed_with_disarm
      end ].

Lemma AllocateIdentity_armed ctx lbls s :
  armed s → armed (final (AllocateIdentity ctx lbls s)).
Proof.
  unfold armed. intros H. revert H.
  run_cases; intros; use_tests; tests_to_props; armed_step.
Qed.

Lemma Release_armed ctx id s :
  armed s → armed (final (Release ctx id s)).
Proof.
  unfold armed. intros H. revert H.
  run_cases; intros; use_tests; tests_to_props; armed_step.
Qed.

(** An invariant of [Release] that does not look at the trace is an
    invariant of the loop of [ReleaseSlice]. *)
Lemma ReleaseSlice_range_invariant (I : State → Prop) ctx :
  (∀ evs s, I s → I (append_trace evs s)) →
  (∀ id s, I s → I (final (Release ctx id s))) →
  ∀ identities err s, I s → I (final (ReleaseSlice_range ctx identities err s)).
Proof.
  intros Htrace Hrelease identities.
  induction identities as [|[id|] rest IH]; intros err s Hs; simpl; auto.
  step. specialize (Hrelease id s Hs).
  destruct (Release ctx id s) as [[lastUse [err2|]] s'| | |]; simpl in *; auto.
Qed.

Lemma coherent_append_trace evs s : coherent s → coherent (append_trace evs s).
Proof. done. Qed.

Lemma armed_append_trace evs s : armed s → armed (append_trace evs s).
Proof. done. Qed.

(** Every call keeps the package state coherent and the counted identities
    armed. *)
Lemma after_invariant op s :
  coherent s ∧ armed s → coherent (after op s) ∧ armed (after op s).
Proof.
  intros [Hc Ha]. destruct op as [owner| |ctx|ctx lbls|ctx id|ctx ids]; simpl.
  - eauto using InitIdentityAllocator_coherent, InitIdentityAllocator_armed.
  - eauto using Close_coherent, Close_armed.
  - eauto using coherent_shape, WaitForInitialIdentities_shape,
      WaitForInitialIdentities_armed.
  - eauto using coherent_shape, AllocateIdentity_shape, AllocateIdentity_armed.
  - eauto using coherent_shape, Release_shape, Release_armed.
  - unfold ReleaseSlice. split.
    + apply (ReleaseSlice_range_invariant coherent);
        eauto using coherent_append_trace, coherent_shape, Release_shape.
    + apply (ReleaseSlice_range_invariant armed);
        eauto using armed_append_trace, Release_armed.
Qed.

Lemma Reachable_invariant s : Reachable s → coherent s ∧ armed s.
Proof.
  induction 1 as [wk|op s _ IH].
  - split; [apply coherent_initial | apply armed_initial].
  - by apply after_invariant.
Qed.

(** *** Lifecycle *)

Lemma InitIdentityAllocator_live owner s :
  is_Some (IdentityAllocator s) →
  InitIdentityAllocator owner s =
    Panics init_twice
      (append_trace
         [Lock setupMutex; Log PanicLevel init_twice []; Unlock setupMutex] s).
Proof.
  intros [a Ha]. unfold_ops. step. rewrite Ha. step. f_equal. same_state.
Qed.

Lemma Close_not_live s :
  IdentityAllocator s = None →
  identityAllocatorInitialized s = false →
  Close s =
    Panics close_first
      (append_trace
         [Lock setupMutex; Log PanicLevel close_first []; Unlock setupMutex] s).
Proof.
  intros Ha Hready. unfold_ops. step. rewrite Ha, Hready. step.
  f_equal. same_state.
Qed.

(** C8: in every state the package can be in, [InitIdentityAllocator]
    panics when there is a live allocator and [Close] panics when there is
    none; the panic leaves every package variable as it was (the trace
    gains the lock, the log line and the deferred unlock). *)
Theorem lifecycle_misuse_panics s :
  Reachable s →
  (∀ owner, is_Some (IdentityAllocator s) →
     InitIdentityAllocator owner s =
       Panics init_twice
         (append_trace
            [Lock setupMutex; Log PanicLevel init_twice []; Unlock setupMutex]
            s)) ∧
  (IdentityAllocator s = None →
     Close s =
       Panics close_first
         (append_trace
            [Lock setupMutex; Log PanicLevel close_first []; Unlock setupMutex]
            s)).
Proof.
  intros [[Hready _] _]%Reachable_invariant. split.
  - intros owner. apply InitIdentityAllocator_live.
  - intros Ha. apply Close_not_live; [done|]. by rewrite Hready, Ha.
Qed.

(** C7: with no live allocator and a backend that can be constructed,
    [InitIdentityAllocator] returns after these steps, in this order:
    the well-known identity table, the watcher, the backend handle, the
    controller manager, the empty count table, the ready signal, the local
    identity cache. The watcher is started before [NewAllocator] is called.
    The package variables are all set afterwards. *)
Theorem InitIdentityAllocator_order owner s a :
  IdentityAllocator s = None →
  identityAllocatorInitialized s = false →
  NewAllocator (GetNodeSuffix owner) = inl a →
  InitIdentityAllocator owner s =
    Returns ()
      {| IdentityAllocator := Some a;
         identityAllocatorInitialized := true;
         localIdentities := Some (newLocalIdentityCache 1 0xFFFFFF);
         watcher := true;
         identityControllerManager := Some ∅;
         idPoolRefCount := Some ∅;
         wellKnown := InitWellKnownIdentities (wellKnown s);
         trace := trace s ++ init_events owner |} ∧
  precedes (WatcherWatch owner) (CallNewAllocator (GetNodeSuffix owner))
    (init_events owner) ∧
  precedes (CallNewAllocator (GetNodeSuffix owner)) CloseInitialized
    (init_events owner) ∧
  precedes CloseInitialized CallNewLocalIdentityCache (init_events owner).
Proof.
  intros Ha Hready Hnew. split; [|split; [|split]].
  - unfold_ops. step. rewrite Ha. step. rewrite Hnew. step.
    rewrite Hready. step. f_equal. same_state.
  - by exists [Lock setupMutex; CallInitWellKnownIdentities;
               Log Info "Initializing identity allocator" []], [],
              [CallNewManager; MakeRefCount; CloseInitialized;
               CallNewLocalIdentityCache; Unlock setupMutex].
  - by exists [Lock setupMutex; CallInitWellKnownIdentities;
               Log Info "Initializing identity allocator" [];
               WatcherWatch owner], [CallNewManager; MakeRefCount],
              [CallNewLocalIdentityCache; Unlock setupMutex].
  - by exists [Lock setupMutex; CallInitWellKnownIdentities;
               Log Info "Initializing identity allocator" [];
               WatcherWatch owner; CallNewAllocator (GetNodeSuffix owner);
               CallNewManager; MakeRefCount], [], [Unlock setupMutex].
Qed.

(** *** Statements on the global path *)

(** C6: with a live handle and an open gate, when the backend's [Allocate]
    (for a global-scope label set) or [Release] (for a global-scope
    identity) returns an error, [AllocateIdentity] and [Release] return
    that error, and the count table and the controllers are as before. *)
Theorem backend_error_leaves_counts ctx s a :
  IdentityAllocator s = Some a →
  gate_open ctx s →
  (∀ lbls (n : N) isNew err,
     LookupReservedIdentityByLabels (wellKnown s) lbls = None →
     global_path lbls s →
     (Allocate ctx lbls a).1 = (n, isNew, Some err) →
     ∃ s', AllocateIdentity ctx lbls s = Returns (None, false, Some err) s' ∧
           idPoolRefCount s' = idPoolRefCount s ∧
           identityControllerManager s' = identityControllerManager s) ∧
  (∀ id lastUse err,
     IsReserved (wellKnown s) id = false →
     global_path (Labels_of id) s →
     (Allocator_Release ctx (Labels_of id) a).1 = (lastUse, Some err) →
     ∃ s', Release ctx id s = Returns (false, Some err) s' ∧
           idPoolRefCount s' = idPoolRefCount s ∧
           identityControllerManager s' = identityControllerManager s).
Proof.
  intros Ha Hgate. split.
  - intros. by eapply AllocateIdentity_backend_error.
  - intros. by eapply Release_backend_error.
Qed.

Lemma Release_zero_count_returns ctx id s a lastUse :
  refCount_of s (uint32 (ID id)) = 0%N →
  IsReserved (wellKnown s) id = false →
  global_path (Labels_of id) s →
  IdentityAllocator s = Some a →
  gate_open ctx s →
  (Allocator_Release ctx (Labels_of id) a).1 = (lastUse, None) →
  ∃ w, wait_events w ∧
    Release ctx id s =
      Returns (lastUse, None)
        (set_IdentityAllocator
           (Some (Allocator_Release ctx (Labels_of id) a).2)
           (append_trace
              (w ++ [CallRelease (Labels_of id);
                     Lock identityRefCountMutex;
                     Unlock identityRefCountMutex])
              s)).
Proof.
  intros Hzero Hres Hpath Ha Hgate Hcall. unfold Release.
  step. rewrite Hres.
  to_backend Hpath Ha Hgate w Hw. exists w. split; [done|].
  unfold IdentityAllocator_Release. step. rewrite Ha. step.
  rewrite Hcall. step.
  unfold idPoolRefCount_get, refCount_of in *. step. rewrite Hzero. step.
  f_equal. same_state.
Qed.

(** C4: when the count of the identity is zero (or the identity is absent
    from the table), [Release] leaves the count table and the controllers
    as they are, however the call ends; on the global path, with the
    backend's release succeeding, it returns the backend's answer and the
    critical section is empty: no controller is removed, no count stored. *)
Theorem Release_zero_count ctx id s :
  refCount_of s (uint32 (ID id)) = 0%N →
  (idPoolRefCount (final (Release ctx id s)) = idPoolRefCount s ∧
   identityControllerManager (final (Release ctx id s)) =
     identityControllerManager s) ∧
  (∀ a lastUse,
     IsReserved (wellKnown s) id = false →
     global_path (Labels_of id) s →
     IdentityAllocator s = Some a →
     gate_open ctx s →
     (Allocator_Release ctx (Labels_of id) a).1 = (lastUse, None) →
     ∃ w, wait_events w ∧
       Release ctx id s =
         Returns (lastUse, None)
           (set_IdentityAllocator
              (Some (Allocator_Release ctx (Labels_of id) a).2)
              (append_trace
                 (w ++ [CallRelease (Labels_of id);
                        Lock identityRefCountMutex;
                        Unlock identityRefCountMutex])
                 s))).
Proof.
  intros Hzero. split.
  - by apply Release_zero_count_frame.
  - intros. by eapply Release_zero_count_returns.
Qed.

Lemma coherent_live s a :
  coherent s → IdentityAllocator s = Some a →
  ∃ m rc, identityControllerManager s = Some m ∧ idPoolRefCount s = Some rc.
Proof.
  intros [_ Hlive] Ha. rewrite Ha in Hlive. destruct Hlive as (Hm & Hrc & _); [done|].
  destruct (identityControllerManager s), (idPoolRefCount s); try done. eauto.
Qed.

Lemma controllers_of_size n m : (size (controllers_of n m) ≤ 1)%nat.
Proof.
  unfold controllers_of.
  destruct (m !! controller_name n) as [p|] eqn:Hn.
  - assert (filter (λ kv, kv.1 = controller_name n) m
            = {[controller_name n := p]}) as ->; [|by rewrite map_size_singleton].
    apply map_eq. intros k. rewrite map_lookup_filter.
    destruct (decide (k = controller_name n)) as [->|Hne].
    + rewrite Hn, lookup_singleton_eq. cbn [mbind option_bind].
      by rewrite option_guard_True.
    + rewrite lookup_singleton_ne by done.
      destruct (m !! k); cbn [mbind option_bind]; [|done].
      by rewrite option_guard_False.
  - assert (filter (λ kv, kv.1 = controller_name n) m = ∅) as ->;
      [|rewrite map_size_empty; lia].
    apply map_eq. intros k. rewrite map_lookup_filter, lookup_empty.
    destruct (m !! k) eqn:Hk; cbn [mbind option_bind]; [|done].
    rewrite option_guard_False; [done|]. cbn [fst]. intros ->. congruence.
Qed.

(** *** ReleaseSlice *)

(** A call that returns [a] returns it in its final state. *)
Lemma returned_final {A} (r : Result A) (a : A) :
  returned r = Some a → r = Returns a (final r).
Proof. destruct r; simpl; intros [=]; by subst. Qed.

Lemma from_option_last_cons {A} (x : A) (o err : option A) :
  from_option Some (Some x) o =
  from_option Some err (match o with Some y => Some y | None => Some x end).
Proof. by destruct o. Qed.

Lemma ReleaseSlice_range_attempts ctx identities :
  ∀ ts err s,
    omap (λ p, p) identities = (λ t : Attempt, t.1.1) <$> ts →
    attempts ctx s ts →
    ReleaseSlice_range ctx identities err s =
      Returns (from_option Some err (last_error ts)) (end_state s ts).
Proof.
  induction identities as [|[id|] rest IH]; intros ts err s Hids Hts.
  - destruct ts; [done|discriminate].
  - destruct ts as [|[[id' r] s1] ts]; [discriminate|].
    simpl in Hids. injection Hids as <- Hids.
    destruct Hts as [Hrelease Hts]. simpl in Hrelease.
    simpl. step. rewrite Hrelease. unfold after_attempt, attempt_error in Hts.
    simpl in Hts. unfold last_error, end_state. simpl.
    unfold attempt_error at 1. simpl. rewrite last_cons.
    destruct r as [lastUse [e|]]; simpl in *.
    + step. unfold release_failed in Hts.
      rewrite (IH ts (Some e) _ Hids Hts).
      unfold last_error, end_state. rewrite last_cons.
      f_equal; [apply from_option_last_cons|].
      by destruct (last ts).
    + rewrite (IH ts err _ Hids Hts).
      unfold last_error, end_state.
      f_equal. by destruct (last ts).
  - simpl in *. by apply IH.
Qed.

(** C9: whatever the list, if releasing its non-nil elements one after the
    other returns each time (with or without an error), then [ReleaseSlice]
    makes exactly these attempts, a failure stopping nothing and being
    logged, and returns the last error among them, nil if none failed. *)
Theorem ReleaseSlice_best_effort ctx identities ts s :
  omap (λ p, p) identities = (λ t : Attempt, t.1.1) <$> ts →
  attempts ctx s ts →
  ReleaseSlice ctx identities s = Returns (last_error ts) (end_state s ts).
Proof.
  intros Hids Hts. unfold ReleaseSlice.
  rewrite (ReleaseSlice_range_attempts ctx identities ts None s Hids Hts).
  by destruct (last_error ts).
Qed.

Lemma ReleaseSlice_range_skip_nil ctx before after_ :
  ∀ err s,
    ReleaseSlice_range ctx (before ++ None :: after_) err s =
    ReleaseSlice_range ctx (before ++ after_) err s.
Proof.
  induction before as [|[id|] before IH]; intros err s; simpl; [done| |done].
  step. destruct (Release ctx id s) as [[lastUse [e|]] s'| | |]; simpl;
    [step; apply IH|apply IH|done..].
Qed.

(** C10: a nil entry of the list changes nothing: with or without it
    [ReleaseSlice] ends the same way, with the same result and the same
    final state, trace included (no release, no log line, no error); a
    list of nil entries only returns nil at once. *)
Theorem ReleaseSlice_skips_nil ctx :
  (∀ before after_ s,
     ReleaseSlice ctx (before ++ None :: after_) s =
     ReleaseSlice ctx (before ++ after_) s) ∧
  (∀ k s, ReleaseSlice ctx (replicate k None) s = Returns None s).
Proof.
  split.
  - intros. apply ReleaseSlice_range_skip_nil.
  - intros k s. unfold ReleaseSlice. by induction k.
Qed.

(** *** Further properties: the paths that need no backend *)

(** X1: [Release] of a reserved identity returns [(false, nil)] and leaves
    the package state as it is, trace included: no wait, no call of the
    backend or of the local cache, no counting, initialised or not. *)
Theorem Release_reserved ctx id s :
  IsReserved (wellKnown s) id = true →
  Release ctx id s = Returns (false, None) s.
Proof. intros Hres. unfold Release. step. by rewrite Hres. Qed.

(** X2: for an identity that is not reserved and whose labels do not
    require a global identity, when the local identity cache exists,
    [Release] returns what the cache's [release] answers with a nil error;
    only the cache changes, the backend is not called and the count table
    and the controllers are as before. *)
Theorem Release_local ctx id s l :
  IsReserved (wellKnown s) id = false →
  RequiresGlobalIdentity (Labels_of id) = false →
  localIdentities s = Some l →
  Release ctx id s =
    Returns ((release id l).1, None)
      (set_localIdentities (Some (release id l).2)
         (append_trace [CallLocalRelease id] s)).
Proof.
  intros Hres Hglobal Hl. unfold Release. step.
  rewrite Hres, Hglobal, Hl. simpl.
  unfold localIdentities_release. step. by rewrite Hl.
Qed.

(** X14: [IdentityAllocationIsLocal] always returns and changes nothing.
    When it answers true, [LookupReservedIdentityByLabels] finds an
    identity for these labels and [AllocateIdentity] returns that very
    identity with [isNew = false], without any call (two log lines only),
    whatever the context. It answers false exactly when the lookup finds
    nothing; this does not mean that the kvstore is needed: for labels that
    do not require a global identity, with a local cache,
    [AllocateIdentity] then returns the answer of the cache's
    [lookupOrCreate] and calls nothing else. *)
Theorem IdentityAllocationIsLocal_sound ctx lbls s :
  ∃ b, IdentityAllocationIsLocal lbls s = Returns b s ∧
    (b = true →
     ∃ r, LookupReservedIdentityByLabels (wellKnown s) lbls = Some r ∧
          AllocateIdentity ctx lbls s =
            Returns (Some r, false, None)
              (append_trace
                 [Log Debug "Resolving identity" [FIdentityLabels lbls];
                  Log Debug "Resolved reserved identity"
                    [FIdentity (ID r); FIdentityLabels lbls; FIsNew false]]
                 s)) ∧
    (b = false ↔ LookupReservedIdentityByLabels (wellKnown s) lbls = None) ∧
    (b = false →
     ∀ l, RequiresGlobalIdentity lbls = false →
          localIdentities s = Some l →
          AllocateIdentity ctx lbls s =
            Returns (lookupOrCreate lbls l).1
              (set_localIdentities (Some (lookupOrCreate lbls l).2)
                 (append_trace
                    [Log Debug "Resolving identity" [FIdentityLabels lbls];
                     CallLookupOrCreate lbls] s))).
Proof.
  unfold IdentityAllocationIsLocal, AllocateIdentity. step.
  destruct (LookupReservedIdentityByLabels (wellKnown s) lbls) as [r|] eqn:Hres.
  - exists true. split; [done|]. split; [|by split].
    intros _. exists r. split; [done|]. step. by rewrite append_trace_app.
  - exists false. split; [done|]. split; [done|]. split; [done|].
    intros _ l Hglobal Hl. rewrite Hglobal, Hl. simpl.
    unfold localIdentities_lookupOrCreate. step. rewrite Hl. step.
    by rewrite append_trace_app.
Qed.

(** *** Further properties: the readiness gate *)

(** X9: [WaitForInitialIdentities] never changes a package variable: its
    final state is the initial one with at most the event of the
    backend's wait appended, however it ends. In every state the package
    can be in, once the ready channel is closed and the context is not
    done, it returns exactly what the backend's [WaitForInitialSync]
    answers; with the channel open and the context done it returns the
    cancellation error without calling the backend. *)
Theorem WaitForInitialIdentities_gate ctx s :
  Reachable s →
  (∃ w, wait_events w ∧
        final (WaitForInitialIdentities ctx s) = append_trace w s) ∧
  (identityAllocatorInitialized s = true → ctx_done ctx = false →
   ∃ a, IdentityAllocator s = Some a ∧
        WaitForInitialIdentities ctx s =
          Returns (WaitForInitialSync ctx a)
            (append_trace [CallWaitForInitialSync] s)) ∧
  (identityAllocatorInitialized s = false → ctx_done ctx = true →
   WaitForInitialIdentities ctx s =
     Returns (Some ("initial identity sync was cancelled: " +:+ ctx_err ctx))
       s).
Proof.
  intros [[Hready _] _]%Reachable_invariant. split; [|split].
  - unfold WaitForInitialIdentities, select_initialized. step.
    destruct (identityAllocatorInitialized s), (ctx_done ctx); simpl;
      try destruct (select_ready_first ctx); simpl;
      try destruct (IdentityAllocator s); simpl;
      first [ by exists []; split; [left|rewrite append_trace_nil]
            | by exists [CallWaitForInitialSync]; split; [right|] ].
  - intros Hi Hd. rewrite Hi in Hready.
    destruct (IdentityAllocator s) as [a|] eqn:Ha; [|done].
    exists a. split; [done|].
    unfold WaitForInitialIdentities, select_initialized. step.
    rewrite Hi, Hd. step. by rewrite Ha.
  - intros Hi Hd. by apply WaitForInitialIdentities_cancelled.
Qed.

(** X3: while there is no allocator (and the ready channel is open), a
    done context lets global-scope calls through the gate, and they fail
    with "allocator not initialized", not with the error of the wait:
    [AllocateIdentity] returns [(nil, false, err)] after its first log
    line, [Release] returns [(false, err)] and changes nothing. *)
Theorem not_initialized_error ctx s :
  IdentityAllocator s = None →
  identityAllocatorInitialized s = false →
  ctx_done ctx = true →
  (∀ lbls,
     LookupReservedIdentityByLabels (wellKnown s) lbls = None →
     global_path lbls s →
     AllocateIdentity ctx lbls s =
       Returns (None, false, Some "allocator not initialized")
         (append_trace
            [Log Debug "Resolving identity" [FIdentityLabels lbls]] s)) ∧
  (∀ id,
     IsReserved (wellKnown s) id = false →
     global_path (Labels_of id) s →
     Release ctx id s =
       Returns (false, Some "allocator not initialized") s).
Proof.
  intros Ha Hready Hd. split.
  - intros lbls Hres Hpath. unfold AllocateIdentity. step. rewrite Hres.
    rewrite (global_path_test _ _ Hpath).
    unfold WaitForInitialIdentities, select_initialized. step.
    rewrite Hready, Hd. step. by rewrite Ha.
  - intros id Hres Hpath. unfold Release. step. rewrite Hres.
    rewrite (global_path_test _ _ Hpath).
    unfold WaitForInitialIdentities, select_initialized. step.
    rewrite Hready, Hd. step. by rewrite Ha.
Qed.

(** X4: while the ready channel is open and the context is not done,
    global-scope calls stay blocked at the gate: [AllocateIdentity] after
    its first log line, [Release] at once; nothing is called and no
    package variable changes. *)
Theorem blocked_until_ready ctx s :
  identityAllocatorInitialized s = false →
  ctx_done ctx = false →
  WaitForInitialIdentities ctx s = Blocks s ∧
  (∀ lbls,
     LookupReservedIdentityByLabels (wellKnown s) lbls = None →
     global_path lbls s →
     AllocateIdentity ctx lbls s =
       Blocks
         (append_trace
            [Log Debug "Resolving identity" [FIdentityLabels lbls]] s)) ∧
  (∀ id,
     IsReserved (wellKnown s) id = false →
     global_path (Labels_of id) s →
     Release ctx id s = Blocks s).
Proof.
  intros Hready Hd. split; [|split].
  - unfold WaitForInitialIdentities, select_initialized. step.
    by rewrite Hready, Hd.
  - intros lbls Hres Hpath. unfold AllocateIdentity. step. rewrite Hres.
    rewrite (global_path_test _ _ Hpath).
    unfold WaitForInitialIdentities, select_initialized. step.
    by rewrite Hready, Hd.
  - intros id Hres Hpath. unfold Release. step. rewrite Hres.
    rewrite (global_path_test _ _ Hpath).
    unfold WaitForInitialIdentities, select_initialized. step.
    by rewrite Hready, Hd.
Qed.

(** *** Further properties: lifecycle *)

Lemma Close_returns s a m :
  IdentityAllocator s = Some a →
  identityAllocatorInitialized s = true →
  identityControllerManager s = Some m →
  Close s = Returns () (closed (wellKnown s) (trace s ++ close_events)).
Proof.
  intros Ha Hready Hm. unfold_ops. step. rewrite Hready. step.
  rewrite Hm. step. rewrite Ha. step. f_equal. same_state.
Qed.

(** X6: in every state the package can be in with a live allocator,
    [Close] returns after these steps, in this order: the count table is
    replaced by an empty one and all controllers are removed (both under
    [identityRefCountMutex]), the backend handle is deleted, the watcher
    stopped, a new open ready channel made. Afterwards there is no handle
    and no local cache, whatever counts and controllers there were. *)
Theorem Close_live s :
  Reachable s →
  is_Some (IdentityAllocator s) →
  Close s = Returns () (closed (wellKnown s) (trace s ++ close_events)).
Proof.
  intros [Hcoherent _]%Reachable_invariant [a Ha].
  destruct (coherent_live s a Hcoherent Ha) as (m & rc & Hm & Hrc).
  apply (Close_returns s a m); try done.
  destruct Hcoherent as [-> _]. by rewrite Ha.
Qed.

Lemma InitIdentityAllocator_returns owner s a :
  IdentityAllocator s = None →
  identityAllocatorInitialized s = false →
  NewAllocator (GetNodeSuffix owner) = inl a →
  InitIdentityAllocator owner s =
    Returns ()
      (initialised a (InitWellKnownIdentities (wellKnown s))
         (trace s ++ init_events owner)).
Proof.
  intros Ha Hready Hnew. unfold_ops. step. rewrite Ha. step.
  rewrite Hnew. step. rewrite Hready. step. f_equal. same_state.
Qed.

(** X7: [Close] followed by [InitIdentityAllocator] gives a fresh
    allocator: from every state the package can be in with a live
    allocator, and with a backend that can be constructed, the second call
    returns with the new handle, an empty count table, no controller and a
    new local cache, as a first initialisation does. *)
Theorem reinitialise owner s a :
  Reachable s →
  is_Some (IdentityAllocator s) →
  NewAllocator (GetNodeSuffix owner) = inl a →
  Close s = Returns () (after OpClose s) ∧
  InitIdentityAllocator owner (after OpClose s) =
    Returns ()
      (initialised a (InitWellKnownIdentities (wellKnown s))
         (trace s ++ close_events ++ init_events owner)).
Proof.
  intros Hreach [a0 Ha] Hnew.
  destruct (Reachable_invariant s Hreach) as [Hcoherent _].
  destruct (coherent_live s a0 Hcoherent Ha) as (m & rc & Hm & Hrc).
  assert (Close s = Returns () (closed (wellKnown s) (trace s ++ close_events)))
    as Hclose.
  { apply (Close_returns s a0 m); try done.
    destruct Hcoherent as [-> _]. by rewrite Ha. }
  simpl. rewrite Hclose. split; [done|]. simpl.
  rewrite (InitIdentityAllocator_returns owner _ a); try done.
  simpl. by rewrite <- app_assoc.
Qed.

(** X8: when the backend cannot be constructed, [InitIdentityAllocator]
    logs the error at fatal level and the process exits: the watcher has
    been started and the well-known identities initialised, there is no
    handle, manager, count table or ready signal, and the deferred unlock
    of [setupMutex] does not run. *)
Theorem InitIdentityAllocator_fatal owner s err :
  IdentityAllocator s = None →
  NewAllocator (GetNodeSuffix owner) = inr err →
  InitIdentityAllocator owner s =
    Exits
      (append_trace
         [Lock setupMutex;
          CallInitWellKnownIdentities;
          Log Info "Initializing identity allocator" [];
          WatcherWatch owner;
          CallNewAllocator (GetNodeSuffix owner);
          Log FatalLevel "Unable to initialize identity allocator"
            [FError err]]
         (set_watcher true
            (set_wellKnown (InitWellKnownIdentities (wellKnown s)) s))).
Proof.
  intros Ha Hnew. unfold_ops. step. rewrite Ha. step. rewrite Hnew. step.
  f_equal. same_state.
Qed.

(** *** Further properties: no nil dereference *)

(** Closes the cases whose tests contradict each other or [coherent]. *)
Ltac absurd_case :=
  try match goal with
      | H : _ && false = true |- _ => rewrite andb_false_r in H; discriminate
      end;
  intuition congruence.

Lemma WaitForInitialIdentities_safe ctx s :
  coherent s → returns_or_blocks (WaitForInitialIdentities ctx s).
Proof.
  unfold coherent. intros [Hready Hlive]. revert Hready Hlive.
  run_cases; intros; simplify_eq/=; absurd_case.
Qed.

Lemma AllocateIdentity_safe ctx lbls s :
  coherent s → returns_or_blocks (AllocateIdentity ctx lbls s).
Proof.
  unfold coherent. intros [Hready Hlive]. revert Hready Hlive.
  run_cases; intros; simplify_eq/=; absurd_case.
Qed.

Lemma Release_safe ctx id s :
  coherent s → returns_or_blocks (Release ctx id s).
Proof.
  unfold coherent. intros [Hready Hlive]. revert Hready Hlive.
  run_cases; intros; simplify_eq/=; absurd_case.
Qed.

Lemma ReleaseSlice_range_safe ctx identities :
  ∀ err s, coherent s →
    returns_or_blocks (ReleaseSlice_range ctx identities err s).
Proof.
  induction identities as [|[id|] rest IH]; intros err s Hs; simpl; auto.
  step. pose proof (Release_safe ctx id s Hs) as Hsafe.
  pose proof (coherent_shape s _ (Release_shape ctx id s) Hs) as Hnext.
  destruct (Release ctx id s) as [[lastUse [err2|]] s'| | |]; simpl in *; auto.
Qed.

(** X5: in every state the package can be in, [WaitForInitialIdentities],
    [AllocateIdentity], [Release] and [ReleaseSlice] return or stay
    blocked at the gate: they never panic (no nil allocator, manager or
    local cache is dereferenced, no nil map written) and never exit. *)
Theorem calls_never_panic s :
  Reachable s →
  (∀ ctx, returns_or_blocks (WaitForInitialIdentities ctx s)) ∧
  (∀ ctx lbls, returns_or_blocks (AllocateIdentity ctx lbls s)) ∧
  (∀ ctx id, returns_or_blocks (Release ctx id s)) ∧
  (∀ ctx identities, returns_or_blocks (ReleaseSlice ctx identities s)).
Proof.
  intros [Hcoherent _]%Reachable_invariant. repeat split; intros.
  - by apply WaitForInitialIdentities_safe.
  - by apply AllocateIdentity_safe.
  - by apply Release_safe.
  - by apply ReleaseSlice_range_safe.
Qed.

(** *** Further properties: the keep-alive controllers *)

Section RegisteredWith.
Implicit Types (m : gmap string ControllerParams).

Lemma registered_with_nil live : registered_with live None.
Proof. intros m' name p [=]. Qed.

Lemma registered_with_empty live : registered_with live (Some ∅).
Proof. intros m' name p [= <-] Hp. by rewrite lookup_empty in Hp. Qed.

Lemma registered_with_update m n lbls :
  registered_with true (Some m) →
  registered_with true
    (Some (<[controller_name n := sync_identity_params lbls]> m)).
Proof.
  intros H m' name p [= <-] Hp.
  destruct (decide (name = controller_name n)) as [->|Hne].
  - rewrite lookup_insert_eq in Hp. injection Hp as <-. eauto.
  - rewrite lookup_insert_ne in Hp by done. by apply (H m).
Qed.

Lemma registered_with_remove live m name :
  registered_with live (Some m) →
  registered_with live (Some (delete name m)).
Proof.
  intros H m' name' p [= <-] Hp.
  apply lookup_delete_Some in Hp as [_ Hp]. by apply (H m).
Qed.

End RegisteredWith.

Ltac registered_step :=
  first
    [ assumption
    | apply registered_with_nil
    | apply registered_with_empty
    | by apply registered_with_update
    | by apply registered_with_remove ].

Ltac registered_cases :=
  unfold registered; intros H; revert H;
  run_cases; intros; use_tests; simpl; registered_step.

Lemma InitIdentityAllocator_registered owner s :
  registered s → registered (final (InitIdentityAllocator owner s)).
Proof. registered_cases. Qed.

Lemma Close_registered s : registered s → registered (final (Close s)).
Proof. registered_cases. Qed.

Lemma WaitForInitialIdentities_registered ctx s :
  registered s → registered (final (WaitForInitialIdentities ctx s)).
Proof. registered_cases. Qed.

Lemma AllocateIdentity_registered ctx lbls s :
  registered s → registered (final (AllocateIdentity ctx lbls s)).
Proof. registered_cases. Qed.

Lemma Release_registered ctx id s :
  registered s → registered (final (Release ctx id s)).
Proof. registered_cases. Qed.

Lemma Reachable_registered s : Reachable s → registered s.
Proof.
  induction 1 as [wk|op s _ IH]; [apply registered_with_nil|].
  destruct op as [owner| |ctx|ctx lbls|ctx id|ctx ids]; simpl.
  - by apply InitIdentityAllocator_registered.
  - by apply Close_registered.
  - by apply WaitForInitialIdentities_registered.
  - by apply AllocateIdentity_registered.
  - by apply Release_registered.
  - apply (ReleaseSlice_range_invariant registered); [done| |done].
    intros. by apply Release_registered.
Qed.


(** *** Further properties: one identity at a time *)

Ltac other_key :=
  rewrite ?lookup_insert_ne, ?lookup_delete_ne
    by (first [ congruence | intros ?%controller_name_inj; congruence ]);
  try done.

Lemma Release_other_identities ctx id s (n' : N) :
  uint32 (ID id) ≠ n' →
  refCount_of (final (Release ctx id s)) n' = refCount_of s n' ∧
  controller_of (final (Release ctx id s)) n' = controller_of s n'.
Proof.
  intros Hne. unfold controller_of.
  run_cases; use_tests; simpl; other_key.
Qed.

Lemma AllocateIdentity_other_identities ctx lbls s (n' : N) :
  (∀ a, IdentityAllocator s = Some a → (Allocate ctx lbls a).1.1.1 ≠ n') →
  refCount_of (final (AllocateIdentity ctx lbls s)) n' = refCount_of s n' ∧
  controller_of (final (AllocateIdentity ctx lbls s)) n' = controller_of s n'.
Proof.
  unfold controller_of. intros Hne. revert Hne.
  run_cases; intros Hne; use_tests; simpl; try done;
    specialize (Hne _ eq_refl);
    match goal with
    | H : (Allocate _ _ _).1 = _ |- _ => rewrite H in Hne; simpl in Hne
    end;
    other_key.
Qed.

(** X16: a call works on one identity only. Whatever path it takes and
    however it ends, [AllocateIdentity] leaves the count and the controller
    of every identity other than the one the backend returns as they were,
    and [Release] those of every identity other than the released one. *)
Theorem other_identities_untouched ctx s (n' : N) :
  (∀ lbls,
     (∀ a, IdentityAllocator s = Some a → (Allocate ctx lbls a).1.1.1 ≠ n') →
     refCount_of (final (AllocateIdentity ctx lbls s)) n' = refCount_of s n' ∧
     controller_of (final (AllocateIdentity ctx lbls s)) n' = controller_of s n') ∧
  (∀ id,
     uint32 (ID id) ≠ n' →
     refCount_of (final (Release ctx id s)) n' = refCount_of s n' ∧
     controller_of (final (Release ctx id s)) n' = controller_of s n').
Proof.
  split.
  - intros. by apply AllocateIdentity_other_identities.
  - intros. by apply Release_other_identities.
Qed.

(** *** Further properties: remote identities *)

Section FederationFacts.
Variables (BackendOperations RemoteCache : Type).
Variable WatchRemoteKVStore :
  BackendOperations → string → Allocator → RemoteCache * Allocator.
Variable IdentitiesPath : string.

(** X15: in every state the package can be in, [WatchRemoteIdentities]
    stays blocked while the ready channel is open (there is no context
    that could end the wait), and once it is closed returns the remote
    cache of the backend's [WatchRemoteKVStore], called on the live
    allocator with the identities path; it never finds a nil allocator
    and touches no other package variable. *)
Theorem WatchRemoteIdentities_gate backend s :
  Reachable s →
  (identityAllocatorInitialized s = false →
   WatchRemoteIdentities _ _ WatchRemoteKVStore IdentitiesPath backend s =
     Blocks s) ∧
  (identityAllocatorInitialized s = true →
   ∃ a, IdentityAllocator s = Some a ∧
     WatchRemoteIdentities _ _ WatchRemoteKVStore IdentitiesPath backend s =
       Returns (WatchRemoteKVStore backend IdentitiesPath a).1
         (set_IdentityAllocator
            (Some (WatchRemoteKVStore backend IdentitiesPath a).2) s)).
Proof.
  intros [[Hready _] _]%Reachable_invariant.
  unfold WatchRemoteIdentities. split; intros Hi; step; rewrite Hi; [done|].
  rewrite Hi in Hready.
  destruct (IdentityAllocator s) as [a|] eqn:Ha; [|done].
  exists a. by split.
Qed.

End FederationFacts.

(** *** Further properties: counting *)

Lemma bounded_with_nil : bounded_with None.
Proof. intros rc' n c [=]. Qed.

Lemma bounded_with_empty : bounded_with (Some ∅).
Proof. intros rc' n c [= <-] Hc. by rewrite lookup_empty in Hc. Qed.

Lemma bounded_with_store (rc : gmap N N) n v :
  (v < uint_modulus)%N →
  bounded_with (Some rc) → bounded_with (Some (<[n := v]> rc)).
Proof.
  intros Hv H rc' n' c [= <-] Hc.
  destruct (decide (n' = n)) as [->|Hne].
  - rewrite lookup_insert_eq in Hc. by injection Hc as <-.
  - rewrite lookup_insert_ne in Hc by done. by apply (H rc n').
Qed.

Lemma uint_incr_bounded x : (uint_incr x < uint_modulus)%N.
Proof. unfold uint_incr. by apply N.mod_lt. Qed.

Lemma uint_decr_bounded x : (uint_decr x < uint_modulus)%N.
Proof. unfold uint_decr. by apply N.mod_lt. Qed.

Ltac bounded_step :=
  first
    [ assumption
    | apply bounded_with_nil
    | apply bounded_with_empty
    | apply bounded_with_store;
      [first [apply uint_incr_bounded | apply uint_decr_bounded]|assumption] ].

Ltac bounded_cases :=
  unfold bounded; intros H; revert H;
  run_cases; intros; use_tests; simpl; bounded_step.

Lemma InitIdentityAllocator_bounded owner s :
  bounded s → bounded (final (InitIdentityAllocator owner s)).
Proof. bounded_cases. Qed.

Lemma Close_bounded s : bounded s → bounded (final (Close s)).
Proof. bounded_cases. Qed.

Lemma WaitForInitialIdentities_bounded ctx s :
  bounded s → bounded (final (WaitForInitialIdentities ctx s)).
Proof. bounded_cases. Qed.

Lemma AllocateIdentity_bounded ctx lbls s :
  bounded s → bounded (final (AllocateIdentity ctx lbls s)).
Proof. bounded_cases. Qed.

Lemma Release_bounded ctx id s :
  bounded s → bounded (final (Release ctx id s)).
Proof. bounded_cases. Qed.

Lemma Reachable_bounded s : Reachable s → bounded s.
Proof.
  induction 1 as [wk|op s _ IH]; [apply bounded_with_nil|].
  destruct op as [owner| |ctx|ctx lbls|ctx id|ctx ids]; simpl.
  - by apply InitIdentityAllocator_bounded.
  - by apply Close_bounded.
  - by apply WaitForInitialIdentities_bounded.
  - by apply AllocateIdentity_bounded.
  - by apply Release_bounded.
  - apply (ReleaseSlice_range_invariant bounded); [done| |done].
    intros. by apply Release_bounded.
Qed.

Lemma refCount_of_bounded s n :
  bounded s → (refCount_of s n < uint_modulus)%N.
Proof.
  unfold bounded, refCount_of. intros H.
  destruct (idPoolRefCount s) as [rc|]; [|done].
  destruct (rc !! n) as [c|] eqn:Hc; [|done]. by apply (H rc n).
Qed.

Lemma refCount_of_armed s n :
  armed s → (0 < refCount_of s n)%N → is_Some (controller_of s n).
Proof.
  unfold armed, refCount_of, controller_of. intros H Hpos.
  destruct (idPoolRefCount s) as [rc|]; [|done].
  destruct (rc !! n) as [c|] eqn:Hc; [|done].
  apply (H n c); [by simpl|done].
Qed.

Lemma uint32_small n : (n < 2 ^ 32)%N → uint32 n = n.
Proof. intros H. unfold uint32. by apply N.mod_small. Qed.

Lemma coherent_gate_open ctx s a :
  coherent s → IdentityAllocator s = Some a → gate_open ctx s.
Proof. intros [Hready _] Ha. left. by rewrite Hready, Ha. Qed.

(** One successful global allocation, seen from the count table. *)
Lemma AllocateIdentity_counts ctx lbls s a (n : N) isNew :
  Reachable s →
  LookupReservedIdentityByLabels (wellKnown s) lbls = None →
  global_path lbls s →
  IdentityAllocator s = Some a →
  (Allocate ctx lbls a).1 = (n, isNew, None) →
  let s' := after (OpAllocateIdentity ctx lbls) s in
  AllocateIdentity ctx lbls s =
    Returns (Some (NewIdentity (NumericIdentity n) lbls), isNew, None) s' ∧
  IdentityAllocator s' = Some (Allocate ctx lbls a).2 ∧
  wellKnown s' = wellKnown s ∧
  localIdentities s' = localIdentities s ∧
  refCount_of s' n = uint_incr (refCount_of s n) ∧
  controller_of s' n =
    (if (refCount_of s n =? 0)%N then Some (sync_identity_params lbls)
     else controller_of s n).
Proof.
  intros Hreach Hres Hpath Ha Hcall s'.
  destruct (Reachable_invariant s Hreach) as [Hcoherent _].
  destruct (coherent_live s a Hcoherent Ha) as (m & rc & Hm & Hrc).
  destruct (AllocateIdentity_success ctx lbls s a m rc n isNew)
    as (w & Hw & Hrun); try done; [by eapply coherent_gate_open|].
  subst s'. simpl. rewrite Hrun. clear Hrun. simpl. repeat split.
  - unfold refCount_of at 1. simpl. rewrite lookup_insert_eq. reflexivity.
  - unfold controller_of. simpl. rewrite Hm.
    destruct (refCount_of s n =? 0)%N; simpl; [|reflexivity].
    rewrite lookup_insert_eq. reflexivity.
Qed.

(** One successful global release, seen from the count table. *)
Lemma Release_counts ctx id s a lastUse :
  Reachable s →
  IsReserved (wellKnown s) id = false →
  global_path (Labels_of id) s →
  IdentityAllocator s = Some a →
  (Allocator_Release ctx (Labels_of id) a).1 = (lastUse, None) →
  let idty := uint32 (ID id) in
  let s' := after (OpRelease ctx id) s in
  Release ctx id s = Returns (lastUse, None) s' ∧
  IdentityAllocator s' = Some (Allocator_Release ctx (Labels_of id) a).2 ∧
  wellKnown s' = wellKnown s ∧
  localIdentities s' = localIdentities s ∧
  refCount_of s' idty = (refCount_of s idty - 1)%N ∧
  controller_of s' idty =
    (if (refCount_of s idty =? 1)%N then None else controller_of s idty).
Proof.
  intros Hreach Hres Hpath Ha Hcall idty s'.
  destruct (Reachable_invariant s Hreach) as [Hcoherent _].
  pose proof (refCount_of_bounded s idty (Reachable_bounded s Hreach)) as Hc.
  destruct (coherent_live s a Hcoherent Ha) as (m & rc & Hm & Hrc).
  destruct (Release_success ctx id s a m rc lastUse)
    as (w & Hw & Hrun); try done; [by eapply coherent_gate_open|].
  subst s'. simpl. rewrite Hrun. clear Hrun. simpl. fold idty. repeat split.
  - unfold refCount_of at 1. simpl.
    destruct (0 <? refCount_of s idty)%N eqn:Hpos.
    + apply N.ltb_lt in Hpos. rewrite lookup_insert_eq. simpl.
      apply uint_decr_pos. lia.
    + apply N.ltb_ge in Hpos. unfold refCount_of in *. rewrite Hrc in *. lia.
  - unfold controller_of. simpl. rewrite Hm.
    destruct (refCount_of s idty =? 1)%N; simpl; [|reflexivity].
    rewrite lookup_delete_eq. reflexivity.
Qed.


Lemma allocations_facts ctx lbls s (n : N) (k : nat) :
  Reachable s →
  is_Some (IdentityAllocator s) →
  LookupReservedIdentityByLabels (wellKnown s) lbls = None →
  global_path lbls s →
  (∀ a, ∃ isNew, (Allocate ctx lbls a).1 = (n, isNew, None)) →
  (refCount_of s n + N.of_nat k < uint_modulus)%N →
  let sk := allocations ctx lbls k s in
  Reachable sk ∧ is_Some (IdentityAllocator sk) ∧
  wellKnown sk = wellKnown s ∧ localIdentities sk = localIdentities s ∧
  refCount_of sk n = (refCount_of s n + N.of_nat k)%N ∧
  ((0 < k)%nat → is_Some (controller_of sk n)).
Proof.
  intros Hreach Hlive Hres Hpath Hbackend. induction k as [|k IH]; intros Hc.
  - simpl. repeat split; try done; [lia|intros; lia].
  - destruct IH as (Hreachk & [ak Hak] & Hwk & Hl & Hck & _); [lia|].
    destruct (Hbackend ak) as [isNew Hcall].
    destruct (AllocateIdentity_counts ctx lbls _ ak n isNew Hreachk)
      as (_ & Ha' & Hwk' & Hl' & Hc' & Hk'); try done.
    { by rewrite Hwk. }
    { destruct Hpath as [Hg|Hn]; [by left|right]. by rewrite Hl. }
    change (allocations ctx lbls (S k) s)
      with (after (OpAllocateIdentity ctx lbls) (allocations ctx lbls k s)).
    repeat split.
    + by apply Reachable_after.
    + by rewrite Ha'.
    + by rewrite Hwk', Hwk.
    + by rewrite Hl', Hl.
    + rewrite Hc', Hck. rewrite uint_incr_small by lia. lia.
    + intros _. rewrite Hk'.
      destruct (refCount_of _ n =? 0)%N eqn:Hzero; [done|].
      apply N.eqb_neq in Hzero. apply refCount_of_armed; [|lia].
      by apply Reachable_invariant.
Qed.

(** X11: counting references. In every state the package can be in with a
    live allocator, when the backend answers every allocation of a global
    label set with the identity [n], [k] calls of [AllocateIdentity] one
    after the other raise the count of [n] by [k] (as long as the [uint]
    does not overflow), and after at least one call [n] has its keep-alive
    controller. *)
Theorem allocations_count ctx lbls s (n : N) (k : nat) :
  Reachable s →
  is_Some (IdentityAllocator s) →
  LookupReservedIdentityByLabels (wellKnown s) lbls = None →
  global_path lbls s →
  (∀ a, ∃ isNew, (Allocate ctx lbls a).1 = (n, isNew, None)) →
  (refCount_of s n + N.of_nat k < uint_modulus)%N →
  refCount_of (allocations ctx lbls k s) n = (refCount_of s n + N.of_nat k)%N ∧
  ((0 < k)%nat → is_Some (controller_of (allocations ctx lbls k s) n)).
Proof.
  intros Hreach Hlive Hres Hpath Hbackend Hc.
  by destruct (allocations_facts ctx lbls s n k) as (_ & _ & _ & _ & ? & ?).
Qed.

Lemma releases_facts ctx id s (k : nat) :
  Reachable s →
  is_Some (IdentityAllocator s) →
  IsReserved (wellKnown s) id = false →
  global_path (Labels_of id) s →
  (∀ a, ∃ lastUse,
     (Allocator_Release ctx (Labels_of id) a).1 = (lastUse, None)) →
  let sk := releases ctx id k s in
  Reachable sk ∧ is_Some (IdentityAllocator sk) ∧
  wellKnown sk = wellKnown s ∧ localIdentities sk = localIdentities s ∧
  refCount_of sk (uint32 (ID id)) =
    (refCount_of s (uint32 (ID id)) - N.of_nat k)%N.
Proof.
  intros Hreach Hlive Hres Hpath Hbackend. induction k as [|k IH].
  - simpl. repeat split; try done. lia.
  - destruct IH as (Hreachk & [ak Hak] & Hwk & Hl & Hck).
    destruct (Hbackend ak) as [lastUse Hcall].
    destruct (Release_counts ctx id _ ak lastUse Hreachk)
      as (_ & Ha' & Hwk' & Hl' & Hc' & _); try done.
    { by rewrite Hwk. }
    { destruct Hpath as [Hg|Hn]; [by left|right]. by rewrite Hl. }
    change (releases ctx id (S k) s)
      with (after (OpRelease ctx id) (releases ctx id k s)).
    repeat split.
    + by apply Reachable_after.
    + by rewrite Ha'.
    + by rewrite Hwk', Hwk.
    + by rewrite Hl', Hl.
    + rewrite Hc', Hck. lia.
Qed.

(** X12: releasing references. In every state the package can be in with
    a live allocator, when the backend's release of a global identity
    succeeds every time, [k] calls of [Release] one after the other lower
    its count by [k], stopping at zero; when [k] is the count itself (and
    not zero), the last call removes the keep-alive controller. *)
Theorem releases_count ctx id s (k : nat) :
  Reachable s →
  is_Some (IdentityAllocator s) →
  IsReserved (wellKnown s) id = false →
  global_path (Labels_of id) s →
  (∀ a, ∃ lastUse,
     (Allocator_Release ctx (Labels_of id) a).1 = (lastUse, None)) →
  let idty := uint32 (ID id) in
  refCount_of (releases ctx id k s) idty =
    (refCount_of s idty - N.of_nat k)%N ∧
  ((0 < k)%nat → refCount_of s idty = N.of_nat k →
   controller_of (releases ctx id k s) idty = None).
Proof.
  intros Hreach Hlive Hres Hpath Hbackend idty. subst idty. split.
  - by destruct (releases_facts ctx id s k) as (_ & _ & _ & _ & ?).
  - destruct k as [|k]; [lia|]. intros _ Hcount.
    destruct (releases_facts ctx id s k)
      as (Hreachk & [ak Hak] & Hwk & Hl & Hck); try done.
    destruct (Hbackend ak) as [lastUse Hcall].
    destruct (Release_counts ctx id _ ak lastUse Hreachk)
      as (_ & _ & _ & _ & _ & Hk'); try done.
    { by rewrite Hwk. }
    { destruct Hpath as [Hg|Hn]; [by left|right]. by rewrite Hl. }
    change (releases ctx id (S k) s)
      with (after (OpRelease ctx id) (releases ctx id k s)).
    rewrite Hk', Hck, Hcount.
    by assert ((N.of_nat (S k) - N.of_nat k =? 1)%N = true) as ->
      by (apply N.eqb_eq; lia).
Qed.

(** *** Further properties: batches *)

Lemma ReleaseSlice_range_app ctx before after_ :
  ∀ err s,
    ReleaseSlice_range ctx (before ++ after_) err s =
    (e ← ReleaseSlice_range ctx before err; ReleaseSlice_range ctx after_ e) s.
Proof.
  induction before as [|[id|] before IH]; intros err s; simpl; [done| |done].
  step. destruct (Release ctx id s) as [[lastUse [e|]] s'| | |]; simpl;
    [step; apply IH|apply IH|done..].
Qed.

Lemma ReleaseSlice_range_err ctx identities :
  ∀ err s,
    ReleaseSlice_range ctx identities err s =
    (e ← ReleaseSlice_range ctx identities None;
     mret (if e is Some _ then e else err)) s.
Proof.
  induction identities as [|[id|] rest IH]; intros err s; simpl; [done| |done].
  step. destruct (Release ctx id s) as [[lastUse [e|]] s'| | |]; simpl;
    [|apply IH|done..].
  step. rewrite (IH (Some e)). step.
  destruct (ReleaseSlice_range ctx rest None _) as [[e'|] s''| | |]; done.
Qed.

(** X17: releasing a list in two batches is releasing it in one: for all
    lists, [ReleaseSlice] on their concatenation ends as [ReleaseSlice] on
    the first followed by [ReleaseSlice] on the second, and its result is
    the error of the second batch if it has one, else that of the first;
    when the first batch does not return (blocked), the second is not
    started. *)
Theorem ReleaseSlice_app ctx before after_ s :
  ReleaseSlice ctx (before ++ after_) s =
    (e1 ← ReleaseSlice ctx before;
     e2 ← ReleaseSlice ctx after_;
     mret (if e2 is Some _ then e2 else e1)) s.
Proof.
  unfold ReleaseSlice. rewrite ReleaseSlice_range_app. step.
  destruct (ReleaseSlice_range ctx before None s) as [e1 s1| | |]; try done.
  apply ReleaseSlice_range_err.
Qed.

(** *** The critical sections under every schedule *)

Implicit Types (pc entry : Pc) (sh : Shared) (threads : list Pc)
  (order : list nat).

Lemma step_pc_rank pc sh pc' sh' :
  step_pc pc sh = Some (pc', sh') → (rank pc' < rank pc)%nat.
Proof.
  destruct pc; simpl; intros H; repeat case_match; simplify_eq; simpl; lia.
Qed.

Lemma steps_rank k pc sh pc' sh' :
  steps k pc sh = Some (pc', sh') → (k + rank pc' ≤ rank pc)%nat.
Proof.
  revert pc sh. induction k as [|k IH]; intros pc sh; simpl.
  - intros [= -> ->]. lia.
  - destruct (step_pc pc sh) as [[pc1 sh1]|] eqn:Hstep; [|done].
    intros H%IH. apply step_pc_rank in Hstep. lia.
Qed.

Lemma steps_snoc k pc sh pc1 sh1 pc2 sh2 :
  steps k pc sh = Some (pc1, sh1) →
  step_pc pc1 sh1 = Some (pc2, sh2) →
  steps (S k) pc sh = Some (pc2, sh2).
Proof.
  revert pc sh. induction k as [|k IH]; intros pc sh.
  - simpl. intros [= -> ->] ->. done.
  - cbn [steps]. destruct (step_pc pc sh) as [[pc' sh']|]; [|done].
    intros H1 H2. apply (IH _ _ H1 H2).
Qed.

Lemma steps_complete k fuel pc sh pc' sh' :
  steps k pc sh = Some (pc', sh') →
  step_pc pc' sh' = None →
  (k ≤ fuel)%nat →
  complete fuel pc sh = sh'.
Proof.
  revert fuel pc sh. induction k as [|k IH]; intros fuel pc sh.
  - simpl. intros [= -> ->] Hend _. destruct fuel; simpl; [done|].
    by rewrite Hend.
  - simpl. destruct (step_pc pc sh) as [[pc1 sh1]|] eqn:Hstep; [|done].
    intros Hk Hend Hle. destruct fuel as [|fuel]; [lia|].
    simpl. rewrite Hstep. apply IH; [done|done|lia].
Qed.

Lemma step_pc_entry pc sh pc' sh' :
  at_entry pc = true →
  step_pc pc sh = Some (pc', sh') →
  locked sh = false ∧ locked sh' = true ∧ in_section pc' = true.
Proof.
  destruct pc; simpl; try done; intros _;
    destruct (locked sh) eqn:Hl; intros; simplify_eq; done.
Qed.

Lemma step_pc_inside pc sh pc' sh' :
  in_section pc = true →
  step_pc pc sh = Some (pc', sh') →
  (in_section pc' = true ∧ locked sh' = locked sh) ∨
  (in_section pc' = false ∧ at_entry pc' = false ∧ locked sh' = false ∧
   ∀ sh'', step_pc pc' sh'' = None).
Proof.
  destruct pc; simpl; try done; intros _ H; repeat case_match; simplify_eq;
    simpl; auto.
Qed.

Lemma step_pc_outside pc sh :
  in_section pc = false → at_entry pc = false → step_pc pc sh = None.
Proof. by destruct pc. Qed.

Lemma in_section_not_entry pc : in_section pc = true → at_entry pc = false.
Proof. by destruct pc. Qed.

Lemma at_entry_not_in_section pc : at_entry pc = true → in_section pc = false.
Proof. by destruct pc. Qed.

Lemma serial_snoc threads order i entry sh :
  threads !! i = Some entry →
  serial threads (order ++ [i]) sh = section_of entry (serial threads order sh).
Proof. intros H. unfold serial. rewrite foldl_app. simpl. by rewrite H. Qed.

Lemma Serialised_start threads sh0 :
  Forall (λ pc, at_entry pc = true) threads →
  locked sh0 = false →
  Serialised threads sh0 (threads, sh0).
Proof.
  intros Hentry Hfree. exists []. simpl. split; [constructor|].
  split; [done|]. split; [intros j Hj; by apply elem_of_nil in Hj|].
  split; [done|]. left. split; [done|]. split; [|done].
  intros j pc Hj. apply at_entry_not_in_section.
  rewrite Forall_forall in Hentry. apply Hentry. by eapply list_elem_of_lookup_2.
Qed.

Lemma step_Serialised threads sh0 i cfg :
  Forall (λ pc, at_entry pc = true) threads →
  Serialised threads sh0 cfg →
  Serialised threads sh0 (step i cfg).
Proof.
  intros Hentry Hser. unfold step.
  destruct (cfg.1 !! i) as [pc|] eqn:Hi; [|done].
  destruct (step_pc pc cfg.2) as [[pc' sh']|] eqn:Hstep; [|done].
  destruct Hser as (order & Hnodup & Hlen & Hstarted & Hwaiting & Hser).
  destruct (at_entry pc) eqn:Hpc.
  - (* the goroutine takes the mutex *)
    destruct (step_pc_entry _ _ _ _ Hpc Hstep) as (Hfree & Hheld & Hin).
    destruct Hser as [(_ & Hidle & Hsh)|(Hl & _)]; [|congruence].
    assert (i ∉ order) as Hfresh.
    { intros Hmem. destruct (Hstarted i Hmem) as (pc1 & Hpc1 & Hne).
      congruence. }
    exists (order ++ [i])%list. simpl. split.
    { apply NoDup_app. split; [done|]. split; [|apply NoDup_singleton].
      intros j Hj ->%list_elem_of_singleton. done. }
    split; [by rewrite length_insert|]. split.
    { intros j [Hj| ->%list_elem_of_singleton]%elem_of_app.
      - rewrite list_lookup_insert_ne by (intros ->; done). by apply Hstarted.
      - exists pc'. split; [|by apply in_section_not_entry].
        apply list_lookup_insert_eq. by eapply lookup_lt_Some. }
    split.
    { intros j Hj. rewrite not_elem_of_app, not_elem_of_cons in Hj.
      destruct Hj as (Hj & Hne & _).
      rewrite list_lookup_insert_ne by done. by apply Hwaiting. }
    right. split; [done|].
    exists order, i, pc, pc', 1%nat. split; [done|].
    split; [by rewrite <- Hwaiting|].
    split; [apply list_lookup_insert_eq; by eapply lookup_lt_Some|].
    split; [done|]. split.
    { intros j pc1 Hne. rewrite list_lookup_insert_ne by done. apply Hidle. }
    simpl. rewrite <- Hsh, Hstep. done.
  - destruct (in_section pc) eqn:Hin;
      [|by rewrite step_pc_outside in Hstep].
    (* the goroutine that holds the mutex moves *)
    destruct Hser as [(_ & Hidle & _)|(Hheld & Hser)];
      [rewrite (Hidle i pc Hi) in Hin; done|].
    destruct Hser as (order' & i0 & entry & pc0 & k & -> & Hi0 & Hpc0 & Hin0
                      & Hothers & Hsteps).
    destruct (decide (i = i0)) as [->|Hne];
      [|rewrite (Hothers i pc Hne Hi) in Hin; done].
    assert (pc0 = pc) as -> by congruence.
    pose proof (steps_snoc _ _ _ _ _ _ _ Hsteps Hstep) as Hsteps'.
    exists (order' ++ [i0])%list. simpl. split; [done|].
    split; [by rewrite length_insert|]. split.
    { intros j Hj. destruct (decide (j = i0)) as [->|Hj0].
      - exists pc'. split; [apply list_lookup_insert_eq; by eapply lookup_lt_Some|].
        destruct (step_pc_inside _ _ _ _ Hin Hstep) as [[? _]|(_ & ? & _)];
          [by apply in_section_not_entry|done].
      - rewrite list_lookup_insert_ne by done. by apply Hstarted. }
    split.
    { intros j Hj. rewrite list_lookup_insert_ne; [by apply Hwaiting|].
      intros ->. apply Hj. apply elem_of_app. right. by apply list_elem_of_singleton. }
    destruct (step_pc_inside _ _ _ _ Hin Hstep)
      as [[Hin' Hl']|(Hout & Hne & Hl' & Hend)].
    + right. split; [congruence|].
      exists order', i0, entry, pc', (S k). split; [done|]. split; [done|].
      split; [apply list_lookup_insert_eq; by eapply lookup_lt_Some|].
      split; [done|]. split; [|done].
      intros j pc1 Hj. rewrite list_lookup_insert_ne by done. by apply Hothers.
    + left. split; [done|]. split.
      * intros j pc1. destruct (decide (j = i0)) as [->|Hj].
        -- rewrite list_lookup_insert_eq by (by eapply lookup_lt_Some).
           by intros [= <-].
        -- rewrite list_lookup_insert_ne by done. by apply Hothers.
      * rewrite (serial_snoc _ _ _ _ _ Hi0). unfold section_of. symmetry.
        apply (steps_complete _ _ _ _ _ _ Hsteps' (Hend _)).
        apply steps_rank in Hsteps'. lia.
Qed.

Lemma run_Serialised threads sh0 schedule :
  Forall (λ pc, at_entry pc = true) threads →
  locked sh0 = false →
  Serialised threads sh0 (run schedule (threads, sh0)).
Proof.
  intros Hentry Hfree. unfold run.
  induction schedule as [|i schedule IH] using rev_ind; simpl.
  - by apply Serialised_start.
  - rewrite foldl_app. simpl. by apply step_Serialised.
Qed.


Ltac crunch :=
  repeat (progress (unfold section_of, count_of, set_locked, set_counts,
                      set_controllers, record; simpl)).
Ltac open_section sh :=
  destruct sh as [l rc m evs]; simpl in *; subst l; crunch.

Lemma section_of_allocate sh (id : N) lbls :
  locked sh = false →
  section_of (ALock id lbls) sh =
    {| locked := false;
       counts := <[id := uint_incr (count_of sh id)]> (counts sh);
       controllers :=
         (if (count_of sh id =? 0)%N
          then <[controller_name id := sync_identity_params lbls]> (controllers sh)
          else controllers sh);
       events := (events sh ++ arm_events id (count_of sh id))%list |}.
Proof.
  intros Hfree. unfold arm_events. open_section sh.
  destruct (default 0 (rc !! id) =? 0)%N; crunch; rewrite <- ?app_assoc; done.
Qed.

Lemma section_of_release sh idty :
  locked sh = false →
  section_of (RLock idty) sh =
    {| locked := false;
       counts := (if (0 <? count_of sh idty)%N
                  then <[idty := uint_decr (count_of sh idty)]> (counts sh)
                  else counts sh);
       controllers :=
         (if (count_of sh idty =? 1)%N
          then delete (controller_name idty) (controllers sh)
          else controllers sh);
       events := (events sh ++ disarm_events idty (count_of sh idty))%list |}.
Proof.
  intros Hfree. unfold disarm_events. open_section sh.
  destruct (0 <? default 0 (rc !! idty))%N eqn:Hpos;
    destruct (default 0 (rc !! idty) =? 1)%N eqn:Hone; crunch;
    rewrite <- ?app_assoc; try done.
  apply N.ltb_ge in Hpos. apply N.eqb_eq in Hone. lia.
Qed.

Lemma section_of_close sh :
  locked sh = false →
  section_of CLock sh =
    {| locked := false; counts := ∅; controllers := ∅;
       events := (events sh ++
                  [Lock identityRefCountMutex; MakeRefCount; RemoveAllAndWait;
                   Unlock identityRefCountMutex])%list |}.
Proof. intros Hfree. open_section sh. rewrite <- !app_assoc. done. Qed.

Lemma allocate_section_ok sh (id : N) lbls :
  locked sh = false → allocate_section sh id lbls.
Proof.
  intros Hfree. unfold allocate_section. cbv zeta.
  rewrite section_of_allocate by done. unfold arm_events, uint_incr, uint_modulus.
  simpl. split; [done|]. split; [done|]. split.
  - intros ->. unfold count_of. simpl. rewrite lookup_insert_eq. done.
  - intros Hc%N.eqb_neq. rewrite Hc. done.
Qed.

Lemma release_section_ok sh idty :
  locked sh = false → release_section sh idty.
Proof.
  intros Hfree. unfold release_section. cbv zeta.
  rewrite section_of_release by done. unfold disarm_events. simpl.
  split; [done|]. split; [|split].
  - intros ->. done.
  - intros ->. done.
  - intros Hc. assert ((0 <? count_of sh idty)%N = true) as ->
      by (apply N.ltb_lt; lia).
    assert ((count_of sh idty =? 1)%N = false) as ->
      by (apply N.eqb_neq; lia).
    rewrite uint_decr_pos by (unfold uint_modulus; lia). done.
Qed.

Lemma close_section_ok sh : locked sh = false → close_section sh.
Proof.
  intros Hfree. unfold close_section. cbv zeta.
  by rewrite section_of_close.
Qed.


Lemma section_of_free entry sh :
  at_entry entry = true → locked sh = false →
  locked (section_of entry sh) = false.
Proof.
  intros Hentry Hfree. destruct entry; try done.
  - by rewrite section_of_allocate.
  - by rewrite section_of_release.
  - by rewrite section_of_close.
Qed.

Lemma count_of_mk l rc m evs n :
  count_of {| locked := l; counts := rc; controllers := m; events := evs |} n
  = default 0 (rc !! n).
Proof. done. Qed.

Lemma count_of_insert sh n k v :
  default 0 (<[k := v]> (counts sh) !! n) =
    (if decide (k = n) then v else count_of sh n).
Proof.
  unfold count_of. destruct (decide (k = n)) as [->|Hne].
  - by rewrite lookup_insert_eq.
  - by rewrite lookup_insert_ne.
Qed.

Lemma section_of_armed entry sh :
  at_entry entry = true → locked sh = false →
  armed_shared sh → armed_shared (section_of entry sh).
Proof.
  intros Hentry Hfree Harmed n. destruct entry; try done.
  - rewrite section_of_allocate by done. rewrite count_of_mk. simpl.
    rewrite count_of_insert. destruct (decide (id = n)) as [->|Hne].
    + intros _. destruct (count_of sh n =? 0)%N eqn:Hc.
      * rewrite lookup_insert_eq. done.
      * apply Harmed. apply N.eqb_neq in Hc. lia.
    + intros Hpos%Harmed. destruct (count_of sh id =? 0)%N; [|done].
      rewrite lookup_insert_ne; [done|]. by intros ?%controller_name_inj.
  - rewrite section_of_release by done. rewrite count_of_mk. simpl.
    destruct (0 <? count_of sh idty)%N eqn:Hpos.
    + rewrite count_of_insert. destruct (decide (idty = n)) as [->|Hne].
      * destruct (count_of sh n =? 1)%N eqn:Hone.
        -- apply N.eqb_eq in Hone. rewrite Hone, uint_decr_one. lia.
        -- intros _. apply Harmed. by apply N.ltb_lt.
      * intros Hn%Harmed. destruct (count_of sh idty =? 1)%N; [|done].
        rewrite lookup_delete_ne; [done|]. by intros ?%controller_name_inj.
    + assert ((count_of sh idty =? 1)%N = false) as ->.
      { apply N.ltb_ge in Hpos. apply N.eqb_neq. lia. }
      apply Harmed.
  - rewrite section_of_close by done. unfold count_of. simpl.
    rewrite lookup_empty. simpl. lia.
Qed.

Lemma section_of_count_le entry sh n :
  at_entry entry = true → locked sh = false →
  (count_of (section_of entry sh) n ≤ count_of sh n + 1)%N.
Proof.
  intros Hentry Hfree. destruct entry; try done.
  - rewrite section_of_allocate by done. rewrite count_of_mk. simpl.
    rewrite count_of_insert. destruct (decide (id = n)) as [->|Hne]; [|lia].
    unfold uint_incr. apply N.Div0.mod_le.
  - rewrite section_of_release by done. rewrite count_of_mk. simpl.
    destruct (0 <? count_of sh idty)%N eqn:Hpos; [|unfold count_of; lia].
    rewrite count_of_insert. destruct (decide (idty = n)) as [->|Hne]; [|lia].
    apply N.ltb_lt in Hpos.
    destruct (decide (count_of sh n < uint_modulus)%N) as [Hlt|Hge].
    + rewrite uint_decr_pos by lia. lia.
    + pose proof (uint_decr_bounded (count_of sh n)). lia.
  - rewrite section_of_close by done. rewrite count_of_mk. simpl.
    rewrite lookup_empty. simpl. lia.
Qed.

Lemma section_of_matched entry sh :
  at_entry entry = true → locked sh = false →
  matched sh →
  (∀ n, (count_of sh n + 1 < 2 ^ 64)%N) →
  matched (section_of entry sh).
Proof.
  intros Hentry Hfree Hmatched Hroom n. destruct entry; try done.
  - rewrite section_of_allocate by done. rewrite count_of_mk. simpl.
    rewrite count_of_insert. destruct (decide (id = n)) as [->|Hne].
    + rewrite uint_incr_small by (unfold uint_modulus; apply Hroom).
      destruct (count_of sh n =? 0)%N eqn:Hc.
      * rewrite lookup_insert_eq. split; [lia|done].
      * apply N.eqb_neq in Hc. rewrite (Hmatched n). lia.
    + destruct (count_of sh id =? 0)%N; [|apply Hmatched].
      rewrite lookup_insert_ne; [apply Hmatched|].
      by intros ?%controller_name_inj.
  - rewrite section_of_release by done. rewrite count_of_mk. simpl.
    destruct (0 <? count_of sh idty)%N eqn:Hpos.
    + apply N.ltb_lt in Hpos.
      rewrite count_of_insert. destruct (decide (idty = n)) as [->|Hne].
      * rewrite uint_decr_pos
          by (unfold uint_modulus; specialize (Hroom n); lia).
        destruct (count_of sh n =? 1)%N eqn:Hone.
        -- rewrite lookup_delete_eq. apply N.eqb_eq in Hone.
           split; [by intros [? ?]|lia].
        -- apply N.eqb_neq in Hone. rewrite (Hmatched n). lia.
      * destruct (count_of sh idty =? 1)%N; [|apply Hmatched].
        rewrite lookup_delete_ne; [apply Hmatched|].
        by intros ?%controller_name_inj.
    + assert ((count_of sh idty =? 1)%N = false) as ->.
      { apply N.ltb_ge in Hpos. apply N.eqb_neq. lia. }
      apply Hmatched.
  - rewrite section_of_close by done. unfold count_of. simpl.
    rewrite !lookup_empty. simpl. split; [by intros [? ?]|lia].
Qed.

Lemma serial_cons threads i order sh :
  serial threads (i :: order) sh =
    serial threads order
      (if threads !! i is Some entry then section_of entry sh else sh).
Proof. done. Qed.

(** What whole critical sections keep, one after the other. *)
Lemma serial_invariant (P : Shared → Prop) threads order sh :
  Forall (λ pc, at_entry pc = true) threads →
  (∀ entry sh, at_entry entry = true → locked sh = false →
               P sh → P (section_of entry sh)) →
  locked sh = false → P sh →
  locked (serial threads order sh) = false ∧ P (serial threads order sh).
Proof.
  intros Hentry Hkeep. revert sh.
  induction order as [|i order IH]; intros sh Hfree HP; [done|].
  rewrite serial_cons. destruct (threads !! i) as [entry|] eqn:Hi; [|by apply IH].
  assert (at_entry entry = true) as He.
  { rewrite Forall_forall in Hentry. apply Hentry.
    by eapply list_elem_of_lookup_2. }
  apply IH; [by apply section_of_free|by apply Hkeep].
Qed.

Lemma serial_matched threads order sh :
  Forall (λ pc, at_entry pc = true) threads →
  locked sh = false → matched sh →
  (∀ n, (count_of sh n + N.of_nat (length order) < 2 ^ 64)%N) →
  matched (serial threads order sh).
Proof.
  intros Hentry. revert sh.
  induction order as [|i order IH]; intros sh Hfree Hmatched Hroom; [done|].
  rewrite serial_cons. destruct (threads !! i) as [entry|] eqn:Hi.
  - assert (at_entry entry = true) as He.
    { rewrite Forall_forall in Hentry. apply Hentry.
      by eapply list_elem_of_lookup_2. }
    apply IH; [by apply section_of_free| |].
    + apply section_of_matched; [done|done|done|].
      intros n. specialize (Hroom n). simpl in Hroom. lia.
    + intros n. specialize (Hroom n). simpl in Hroom.
      pose proof (section_of_count_le entry sh n He Hfree). lia.
  - apply IH; [done|done|]. intros n. specialize (Hroom n).
    simpl in Hroom. lia.
Qed.

Lemma NoDup_below (l : list nat) (n : nat) :
  NoDup l → (∀ j, j ∈ l → (j < n)%nat) → (length l ≤ n)%nat.
Proof.
  intros Hnodup Hbelow.
  assert (length l ≤ length (seq 0 n))%nat as Hle; [|by rewrite length_seq in Hle].
  apply submseteq_length, NoDup_submseteq; [done|].
  intros j Hj. apply elem_of_seq. specialize (Hbelow j Hj). lia.
Qed.

Lemma step_pc_bounded pc sh pc' sh' :
  step_pc pc sh = Some (pc', sh') → bounded_shared sh → bounded_shared sh'.
Proof.
  intros Hstep Hb n.
  destruct pc; simpl in Hstep; repeat case_match; simplify_eq;
    try apply Hb; unfold count_of; simpl.
  - rewrite count_of_insert. case_decide; [|apply Hb].
    apply uint_incr_bounded.
  - rewrite count_of_insert. case_decide; [|apply Hb].
    apply uint_decr_bounded.
  - rewrite lookup_empty. done.
Qed.

Lemma run_bounded threads sh0 schedule :
  bounded_shared sh0 → bounded_shared (run schedule (threads, sh0)).2.
Proof.
  intros Hb. unfold run.
  induction schedule as [|i schedule IH] using rev_ind; [done|].
  rewrite foldl_app. simpl. unfold step.
  destruct (_.1 !! i) as [pc|]; [|done].
  destruct (step_pc pc _) as [[pc' sh']|] eqn:Hstep; [|done].
  simpl. by eapply step_pc_bounded.
Qed.

Lemma goroutines_ok rc m threads schedule :
  Forall (λ pc, at_entry pc = true) threads →
  bounded_shared (shared_of rc m) →
  armed_shared (shared_of rc m) →
  goroutines rc m threads schedule.
Proof.
  intros Hentry Hbounded Harmed. unfold goroutines. cbv zeta.
  pose proof (run_Serialised threads (shared_of rc m) schedule Hentry eq_refl)
    as Hser.
  split; [done|]. split; [by apply run_bounded|].
  destruct Hser as (order & Hnodup & Hlen & Hstarted & _ & Hser).
  split.
  - intros Hfree.
    destruct Hser as [(_ & _ & ->)|(Hheld & _)]; [|congruence].
    by apply (serial_invariant armed_shared);
      [|intros; apply section_of_armed| |].
  - intros Hmatched Hroom Hfree.
    destruct Hser as [(_ & _ & ->)|(Hheld & _)]; [|congruence].
    apply serial_matched; [done|done|done|].
    assert (length order ≤ length threads)%nat as Hle.
    { apply NoDup_below; [done|]. intros j Hj.
      destruct (Hstarted j Hj) as (pc & Hpc%lookup_lt_Some & _).
      by rewrite <- Hlen. }
    intros n. specialize (Hroom n). lia.
Qed.

Lemma count_of_shared_of s rc m n :
  idPoolRefCount s = Some rc →
  count_of (shared_of rc m) n = refCount_of s n.
Proof. intros Hrc. unfold count_of, refCount_of. by rewrite Hrc. Qed.

Lemma AllocateIdentity_section_ok ctx lbls s a (n : N) isNew :
  coherent s →
  LookupReservedIdentityByLabels (wellKnown s) lbls = None →
  global_path lbls s →
  IdentityAllocator s = Some a →
  gate_open ctx s →
  (Allocate ctx lbls a).1 = (n, isNew, None) →
  AllocateIdentity_section ctx lbls s n isNew.
Proof.
  intros Hcoherent Hres Hpath Ha Hgate Hcall.
  destruct (coherent_live s a Hcoherent Ha) as (m & rc & Hm & Hrc).
  destruct (AllocateIdentity_success ctx lbls s a m rc n isNew)
    as (w & Hw & Hrun); try done.
  exists rc, m, w. split; [done|]. split; [done|]. split; [done|].
  cbv zeta. rewrite Hrun. clear Hrun.
  rewrite section_of_allocate by done.
  rewrite (count_of_shared_of s rc m n Hrc). simpl.
  split; [done|]. split; [done|]. split; [done|]. done.
Qed.

Lemma Release_section_ok ctx id s a lastUse :
  coherent s →
  IsReserved (wellKnown s) id = false →
  global_path (Labels_of id) s →
  IdentityAllocator s = Some a →
  gate_open ctx s →
  (Allocator_Release ctx (Labels_of id) a).1 = (lastUse, None) →
  Release_section ctx id s.
Proof.
  intros Hcoherent Hres Hpath Ha Hgate Hcall.
  destruct (coherent_live s a Hcoherent Ha) as (m & rc & Hm & Hrc).
  destruct (Release_success ctx id s a m rc lastUse)
    as (w & Hw & Hrun); try done.
  exists rc, m, w. split; [done|]. split; [done|]. split; [done|].
  cbv zeta. rewrite Hrun. clear Hrun.
  rewrite section_of_release by done.
  rewrite (count_of_shared_of s rc m _ Hrc). simpl.
  split; [done|]. split; [done|]. split; [done|]. done.
Qed.

Lemma Close_section_ok s a :
  coherent s → IdentityAllocator s = Some a → Close_section s.
Proof.
  intros Hcoherent Ha.
  destruct (coherent_live s a Hcoherent Ha) as (m & rc & Hm & Hrc).
  exists rc, m. split; [done|]. split; [done|]. cbv zeta.
  rewrite (Close_returns s a m); [|done| |done].
  - by rewrite section_of_close.
  - destruct Hcoherent as [-> _]. by rewrite Ha.
Qed.

Lemma shared_of_bounded s rc m :
  bounded s → idPoolRefCount s = Some rc → bounded_shared (shared_of rc m).
Proof.
  intros Hb Hrc n. rewrite (count_of_shared_of s rc m n Hrc).
  by apply refCount_of_bounded.
Qed.

Lemma shared_of_armed s rc m :
  armed s → idPoolRefCount s = Some rc → identityControllerManager s = Some m →
  armed_shared (shared_of rc m).
Proof.
  intros Harmed Hrc Hm n. rewrite (count_of_shared_of s rc m n Hrc).
  intros Hpos. pose proof (refCount_of_armed s n Harmed Hpos) as Hc.
  unfold controller_of in Hc. by rewrite Hm in Hc.
Qed.


End Properties.

(** ** The operations on the concrete deployment *)
Module Runs.
Import Scenario.

(** Closes equations between closed terms by evaluating both sides. *)
Ltac by_evaluation :=
  repeat match goal with |- _ ∧ _ => split end;
  lazymatch goal with
  | |- ?x = _ => exact_no_check (@eq_refl _ x)
  | |- True => exact I
  end.

Lemma Reachable_live : Reachable live.
Proof. unfold live, start. apply Reachable_after, Reachable_initial. Qed.

Lemma Reachable_held : Reachable held.
Proof. unfold held. do 2 apply Reachable_after. apply Reachable_live. Qed.

Lemma AllocateIdentity_reserved_witness :
  AllocateIdentity background host start =
    Returns (Some (NewIdentity 1 host), false, None)
      (append_trace
         [Log Debug "Resolving identity" [FIdentityLabels host];
          Log Debug "Resolved reserved identity"
            [FIdentity 1; FIdentityLabels host; FIsNew false]]
         start).
Proof.
  apply (AllocateIdentity_reserved background host start
           (NewIdentity 1 host)).
  reflexivity.
Defined.

Lemma AllocateIdentity_local_witness :
  returned (AllocateIdentity background cidr live) =
    Some (Some (NewIdentity 16777217 cidr), true, None) ∧
  new_events live (AllocateIdentity background cidr live) =
    [Log Debug "Resolving identity" [FIdentityLabels cidr];
     CallLookupOrCreate cidr].
Proof.
  rewrite (AllocateIdentity_local background cidr live 16777217%N);
    [split; reflexivity | reflexivity..].
Defined.

(** C2 (as stated) fails before [InitIdentityAllocator]: for a label set
    that is neither reserved nor global, [AllocateIdentity] does not call
    [lookupOrCreate]; it goes to the readiness gate of the global path,
    returns "allocator not initialized" when the context is cancelled and
    stays blocked when it is not. *)
Lemma AllocateIdentity_local_uninitialised :
  LookupReservedIdentityByLabels (wellKnown start) cidr = None ∧
  RequiresGlobalIdentity cidr = false ∧
  AllocateIdentity cancelled cidr start =
    Returns (None, false, Some "allocator not initialized")
      (append_trace [Log Debug "Resolving identity" [FIdentityLabels cidr]]
         start) ∧
  AllocateIdentity background cidr start =
    Blocks
      (append_trace [Log Debug "Resolving identity" [FIdentityLabels cidr]]
         start).
Proof. repeat split. Qed.

Lemma AllocateIdentity_reserved_before_init :
  IdentityAllocator start = None ∧
  returned (AllocateIdentity cancelled host start) =
    Some (Some (NewIdentity 1 host), false, None).
Proof. split; reflexivity. Qed.

Lemma InitIdentityAllocator_order_witness :
  returned (InitIdentityAllocator owner start) = Some () ∧
  new_events start (InitIdentityAllocator owner start) = init_events owner.
Proof.
  destruct (InitIdentityAllocator_order owner start []
              eq_refl eq_refl eq_refl) as [-> _].
  split; reflexivity.
Defined.

Lemma lifecycle_misuse_panics_witness :
  InitIdentityAllocator owner live =
    Panics init_twice
      (append_trace
         [Lock setupMutex; Log PanicLevel init_twice []; Unlock setupMutex]
         live) ∧
  Close start =
    Panics close_first
      (append_trace
         [Lock setupMutex; Log PanicLevel close_first []; Unlock setupMutex]
         start).
Proof.
  split.
  - apply (lifecycle_misuse_panics live Reachable_live). by eexists.
  - apply (lifecycle_misuse_panics start); [apply Reachable_initial|reflexivity].
Defined.

Lemma backend_error_leaves_counts_witness :
  (∃ s', AllocateIdentity background lost live =
           Returns (None, false, Some "kvstore unreachable") s' ∧
         idPoolRefCount s' = idPoolRefCount live ∧
         identityControllerManager s' = identityControllerManager live) ∧
  (∃ s', Release background id_lost held =
           Returns (false, Some "kvstore unreachable") s' ∧
         idPoolRefCount s' = idPoolRefCount held ∧
         identityControllerManager s' = identityControllerManager held).
Proof.
  split.
  - destruct (backend_error_leaves_counts background live []
                eq_refl (or_introl eq_refl)) as [Hallocate _].
    apply (Hallocate lost 0%N false); [reflexivity|by left|reflexivity].
  - destruct (backend_error_leaves_counts background held [bar; foo]
                eq_refl (or_introl eq_refl)) as [_ Hrelease].
    apply (Hrelease id_lost false); [reflexivity|by left|reflexivity].
Defined.

Lemma Release_zero_count_witness :
  idPoolRefCount (final (Release background id_foo live)) = idPoolRefCount live ∧
  identityControllerManager (final (Release background id_foo live)) =
    identityControllerManager live ∧
  returned (Release background id_foo live) = Some (true, None) ∧
  new_events live (Release background id_foo live) =
    [CallWaitForInitialSync; CallRelease foo;
     Lock identityRefCountMutex; Unlock identityRefCountMutex].
Proof.
  destruct (Release_zero_count background id_foo live eq_refl)
    as [[Htable Hmanager] Hreturns].
  split; [exact Htable|]. split; [exact Hmanager|].
  destruct (Hreturns [] true) as (w & Hw & Hrun);
    [reflexivity|by left|reflexivity|by left|reflexivity|].
  split; reflexivity.
Defined.


(** The run of [racers] under [turns]: the second and the third goroutine
    cannot take the mutex while the first holds it; the sections run in
    the order 0, 1, 2, and the identity ends with the count one and its
    controller. *)
Example racers_run :
  let cfg := run turns (racers, shared_of ∅ ∅) in
  cfg.1 = [AReturn 256; AReturn 256; RReturn 256] ∧
  locked cfg.2 = false ∧
  count_of cfg.2 256 = 1%N ∧
  controllers cfg.2 !! "sync-identity (256)" = Some (sync_identity_params foo) ∧
  events cfg.2 =
    [Lock identityRefCountMutex; UpdateController "sync-identity (256)";
     StoreRefCount 256 1; Unlock identityRefCountMutex;
     Lock identityRefCountMutex; StoreRefCount 256 2;
     Unlock identityRefCountMutex;
     Lock identityRefCountMutex; StoreRefCount 256 1;
     Unlock identityRefCountMutex] ∧
  (run (take 7 turns) (racers, shared_of ∅ ∅)).1 =
    [AIncrWrite 256 0; ALock 256 foo; RLock 256] ∧
  cfg.2 = serial racers [0; 1; 2]%nat (shared_of ∅ ∅).
Proof. cbv zeta. by_evaluation. Qed.

Lemma ReleaseSlice_best_effort_witness :
  returned (ReleaseSlice background batch held) =
    Some (Some "kvstore unreachable") ∧
  new_events held (ReleaseSlice background batch held) =
    [CallWaitForInitialSync; CallRelease foo; Lock identityRefCountMutex;
     RemoveControllerAndWait "sync-identity (256)"; StoreRefCount 256 0;
     Unlock identityRefCountMutex;
     CallWaitForInitialSync; CallRelease lost;
     release_failed id_lost "kvstore unreachable";
     CallWaitForInitialSync; CallRelease bar; Lock identityRefCountMutex;
     RemoveControllerAndWait "sync-identity (257)"; StoreRefCount 257 0;
     Unlock identityRefCountMutex].
Proof.
  assert (attempts background held [attempt_foo; attempt_lost; attempt_bar])
    as Hattempts.
  { split; [|split; [|split; [|exact I]]].
    - exact_no_check
        (returned_final (Release background id_foo held) (true, None)
           (@eq_refl _ (Some (true, None)))).
    - exact_no_check
        (returned_final
           (Release background id_lost (after_attempt attempt_foo))
           (false, Some "kvstore unreachable")
           (@eq_refl _ (Some (false, Some "kvstore unreachable")))).
    - exact_no_check
        (returned_final
           (Release background id_bar (after_attempt attempt_lost))
           (true, None) (@eq_refl _ (Some (true, None)))). }
  pose proof (ReleaseSlice_best_effort background batch
                [attempt_foo; attempt_lost; attempt_bar] held
                eq_refl Hattempts) as Hrun.
  rewrite Hrun. by_evaluation.
Defined.

(** C1: the error of the readiness wait is dropped. With a cancelled
    context and a live allocator the wait returns the context's error, and
    [AllocateIdentity] and [Release] go on to the backend and return its
    answer with a nil error, counting the reference; before
    [InitIdentityAllocator] the wait returns its cancellation error and
    the two functions return another one, "allocator not initialized". *)
Theorem wait_error_is_dropped :
  (returned (WaitForInitialIdentities cancelled held) =
     Some (Some "context canceled") ∧
   returned (AllocateIdentity cancelled foo held) =
     Some (Some id_foo, false, None) ∧
   refCount_of held 256 = 1%N ∧
   refCount_of (final (AllocateIdentity cancelled foo held)) 256 = 2%N ∧
   returned (Release cancelled id_foo held) = Some (true, None) ∧
   refCount_of (final (Release cancelled id_foo held)) 256 = 0%N) ∧
  (returned (WaitForInitialIdentities cancelled start) =
     Some (Some "initial identity sync was cancelled: context canceled") ∧
   returned (AllocateIdentity cancelled foo start) =
     Some (None, false, Some "allocator not initialized") ∧
   returned (Release cancelled id_foo start) =
     Some (false, Some "allocator not initialized")).
Proof. by_evaluation. Qed.

(** The scenario of the specification: three allocations of one global
    label set give the same identity, a count of three and one controller;
    three releases bring the count to zero and remove the controller; a
    fourth release changes neither. *)
Example three_holders :
  returned (AllocateIdentity background foo live) =
    Some (Some id_foo, true, None) ∧
  refCount_of thrice 256 = 3%N ∧
  (dom <$> identityControllerManager thrice) = Some {["sync-identity (256)"]} ∧
  refCount_of released 256 = 0%N ∧
  (dom <$> identityControllerManager released) = Some ∅ ∧
  new_events released (Release background id_foo released) =
    [CallWaitForInitialSync; CallRelease foo;
     Lock identityRefCountMutex; Unlock identityRefCountMutex].
Proof. by_evaluation. Qed.

End Runs.

(** ** Further runs on the concrete deployment *)
Module MoreRuns.
Import Scenario Runs.

Lemma Reachable_thrice : Reachable thrice.
Proof. unfold thrice. do 3 apply Reachable_after. apply Reachable_live. Qed.

Lemma Release_reserved_witness :
  Release cancelled (NewIdentity 1 host) start = Returns (false, None) start.
Proof. apply Release_reserved. reflexivity. Defined.

Lemma Release_local_witness :
  Release background id_cidr live =
    Returns ((release id_cidr 16777217%N).1, None)
      (set_localIdentities (Some (release id_cidr 16777217%N).2)
         (append_trace [CallLocalRelease id_cidr] live)).
Proof. apply Release_local; by_evaluation. Defined.

Lemma WaitForInitialIdentities_gate_witness :
  WaitForInitialIdentities background live =
    Returns None (append_trace [CallWaitForInitialSync] live).
Proof.
  destruct (WaitForInitialIdentities_gate background live Reachable_live)
    as (_ & Hready & _).
  destruct Hready as (a & Ha & Hrun); [by_evaluation..|].
  rewrite Hrun. reflexivity.
Defined.

Lemma not_initialized_error_witness :
  AllocateIdentity cancelled foo start =
    Returns (None, false, Some "allocator not initialized")
      (append_trace [Log Debug "Resolving identity" [FIdentityLabels foo]]
         start) ∧
  Release cancelled id_foo start =
    Returns (false, Some "allocator not initialized") start.
Proof.
  destruct (not_initialized_error cancelled start eq_refl eq_refl eq_refl)
    as [Hallocate Hrelease].
  split.
  - apply Hallocate; [by_evaluation|by left].
  - apply Hrelease; [by_evaluation|by left].
Defined.

Lemma blocked_until_ready_witness :
  WaitForInitialIdentities background start = Blocks start ∧
  AllocateIdentity background foo start =
    Blocks
      (append_trace [Log Debug "Resolving identity" [FIdentityLabels foo]]
         start) ∧
  Release background id_foo start = Blocks start.
Proof.
  destruct (blocked_until_ready background start eq_refl eq_refl)
    as (Hwait & Hallocate & Hrelease).
  split; [exact Hwait|]. split.
  - apply Hallocate; [by_evaluation|by left].
  - apply Hrelease; [by_evaluation|by left].
Defined.

Lemma calls_never_panic_witness :
  returns_or_blocks (AllocateIdentity background lost held) ∧
  returns_or_blocks (Release cancelled id_lost held) ∧
  returns_or_blocks (ReleaseSlice background batch held).
Proof.
  destruct (calls_never_panic held Reachable_held)
    as (_ & Hallocate & Hrelease & Hslice).
  split; [apply Hallocate|]. split; [apply Hrelease|apply Hslice].
Defined.

Lemma Close_live_witness :
  Close held = Returns () (closed (wellKnown held) (trace held ++ close_events)).
Proof. apply (Close_live held Reachable_held). by eexists. Defined.

Lemma reinitialise_witness :
  InitIdentityAllocator owner (after OpClose held) =
    Returns ()
      (initialised [] (InitWellKnownIdentities (wellKnown held))
         (trace held ++ close_events ++ init_events owner)).
Proof.
  apply (reinitialise owner held [] Reachable_held); [by eexists|reflexivity].
Defined.

Lemma InitIdentityAllocator_fatal_witness :
  InitIdentityAllocator nameless start =
    Exits
      (append_trace
         [Lock setupMutex;
          CallInitWellKnownIdentities;
          Log Info "Initializing identity allocator" [];
          WatcherWatch nameless;
          CallNewAllocator "";
          Log FatalLevel "Unable to initialize identity allocator"
            [FError "empty node suffix"]]
         (set_watcher true
            (set_wellKnown (InitWellKnownIdentities (wellKnown start)) start))).
Proof. apply (InitIdentityAllocator_fatal nameless start); reflexivity. Defined.


Lemma other_identities_untouched_witness :
  refCount_of (final (AllocateIdentity background foo held)) 257 =
    refCount_of held 257 ∧
  controller_of (final (AllocateIdentity background foo held)) 257 =
    controller_of held 257 ∧
  refCount_of (final (Release background id_foo held)) 257 =
    refCount_of held 257 ∧
  controller_of (final (Release background id_foo held)) 257 =
    controller_of held 257.
Proof.
  destruct (other_identities_untouched background held 257)
    as [Hallocate Hrelease].
  destruct (Hallocate foo) as [Hcount Hcontroller].
  { intros a _. vm_compute. discriminate. }
  destruct (Hrelease id_foo) as [Hcount' Hcontroller'].
  { vm_compute. discriminate. }
  by repeat split.
Defined.

Lemma WatchRemoteIdentities_gate_witness :
  WatchRemoteIdentities _ _ WatchRemoteKVStore IdentitiesPath "cluster2" start
    = Blocks start ∧
  returned
    (WatchRemoteIdentities _ _ WatchRemoteKVStore IdentitiesPath "cluster2" live)
    = Some ("cluster2", IdentitiesPath).
Proof.
  split.
  - apply (WatchRemoteIdentities_gate _ _ WatchRemoteKVStore IdentitiesPath
             "cluster2" start (Reachable_initial _)).
    reflexivity.
  - destruct (WatchRemoteIdentities_gate _ _ WatchRemoteKVStore IdentitiesPath
                "cluster2" live Reachable_live) as [_ Hready].
    destruct Hready as (a & Ha & Hrun); [by_evaluation|].
    rewrite Hrun. reflexivity.
Defined.


Lemma allocations_count_witness :
  refCount_of (allocations background foo 3 live) 256 =
    (refCount_of live 256 + N.of_nat 3)%N ∧
  ((0 < 3)%nat → is_Some (controller_of (allocations background foo 3 live) 256)).
Proof.
  apply (allocations_count background foo live 256 3 Reachable_live).
  - by eexists.
  - by_evaluation.
  - by left.
  - intros a. eexists. reflexivity.
  - reflexivity.
Defined.

Lemma releases_count_witness :
  refCount_of (releases background id_foo 3 thrice) (uint32 (ID id_foo)) =
    (refCount_of thrice (uint32 (ID id_foo)) - N.of_nat 3)%N ∧
  ((0 < 3)%nat → refCount_of thrice (uint32 (ID id_foo)) = N.of_nat 3 →
   controller_of (releases background id_foo 3 thrice) (uint32 (ID id_foo))
     = None).
Proof.
  apply (releases_count background id_foo thrice 3 Reachable_thrice).
  - by eexists.
  - by_evaluation.
  - by left.
  - intros a. eexists. reflexivity.
Defined.

(** The counts of the runs above, evaluated. *)
Example counted_runs :
  refCount_of (allocations background foo 3 live) 256 = 3%N ∧
  refCount_of (releases background id_foo 3 thrice) 256 = 0%N ∧
  controller_of (releases background id_foo 3 thrice) 256 = None ∧
  refCount_of (releases background id_foo 5 thrice) 256 = 0%N.
Proof. by_evaluation. Qed.

Lemma IdentityAllocationIsLocal_sound_witness :
  IdentityAllocationIsLocal host start = Returns true start ∧
  IdentityAllocationIsLocal cidr live = Returns false live ∧
  AllocateIdentity cancelled host start =
    Returns (Some (NewIdentity 1 host), false, None)
      (append_trace
         [Log Debug "Resolving identity" [FIdentityLabels host];
          Log Debug "Resolved reserved identity"
            [FIdentity 1; FIdentityLabels host; FIsNew false]]
         start) ∧
  returned (AllocateIdentity background cidr live) =
    Some (Some (NewIdentity 16777217 cidr), true, None).
Proof.
  destruct (IdentityAllocationIsLocal_sound cancelled host start)
    as (b & Hb & Htrue & _).
  destruct (IdentityAllocationIsLocal_sound background cidr live)
    as (b' & Hb' & _ & _ & Hfalse).
  assert (IdentityAllocationIsLocal host start = Returns true start) as Hrun
    by reflexivity.
  assert (IdentityAllocationIsLocal cidr live = Returns false live) as Hrun'
    by reflexivity.
  split; [exact Hrun|]. split; [exact Hrun'|].
  rewrite Hrun in Hb. injection Hb as <-.
  rewrite Hrun' in Hb'. injection Hb' as <-.
  split.
  - destruct (Htrue eq_refl) as (r & Hr & Hcall).
    assert (r = NewIdentity 1 host) as -> by (by injection Hr).
    exact Hcall.
  - rewrite (Hfalse eq_refl (newLocalIdentityCache 1 0xFFFFFF));
      reflexivity.
Defined.

End MoreRuns.
